(** * gatsby-source-ghost: the ingestion workflow of [gatsby-node.js]

    A shallow embedding of [src/gatsby-node.js]: the feature-image
    side-loader, the ingestion orchestrator [createLiveGhostNodes] and the
    schema placeholder manager [createTemporaryFakeNodes].

    The plugin is glue between two runtimes it does not own: the CMS content
    API and the site generator (node store, file cache, event emitter).  Both
    are modelled as an environment: every reply of the environment is an
    input of the model, every call the plugin makes on it is recorded in a
    trace of effects. *)

From Stdlib Require Import ZArith String List Lia.
From stdpp Require Import base option list gmap strings.
Import ListNotations.

Local Open Scope string_scope.
Local Open Scope list_scope.

(** ** JavaScript values and objects *)

Module Js.

(** The values the plugin inspects.  Nested relation data of a record (its
    tags, its authors, ...) is never looked into and is carried as an
    opaque payload. *)
Inductive value :=
| VUndef
| VNull
| VNum (n : Z)
| VStr (s : string)
| VJson (payload : string).

(** JavaScript truthiness, as used by [if (post.feature_image)]. *)
Definition truthy (v : value) : bool :=
  match v with
  | VUndef | VNull => false
  | VNum n => negb (n =? 0)%Z
  | VStr s => negb (String.eqb s EmptyString)
  | VJson _ => true
  end.

(** A plain object: property name to value. *)
Abbreviation obj := (gmap string value).

(** [o.k]: reading a missing property gives [undefined]. *)
Definition get (o : obj) (k : string) : value := default VUndef (o !! k).

(** What a promise rejects with, or what a [throw] carries. *)
Inductive error :=
| Thrown (payload : string)
| TypeError (msg : string).

(** How an asynchronous call of the environment settles. *)
Inductive outcome (A : Type) :=
| Resolved (a : A)
| Rejected (e : error).
Arguments Resolved {A} a.
Arguments Rejected {A} e.

(** The state of a promise of the plugin. *)
Inductive status :=
| Pending
| Fulfilled
| Failed (e : error).

Definition is_fulfilled (p : status) : bool :=
  match p with Fulfilled => true | _ => false end.

Definition is_pending (p : status) : bool :=
  match p with Pending => true | _ => false end.

End Js.
Import Js.

(** ** Records, nodes and the effects on the host *)

Module Ingest.

(** The file node [createRemoteFileNode] resolves with.  [file_fields] is
    its [fields] object, which [createNodeField] extends. *)
Record FileNode := {
  file_id : string;
  file_fields : obj
}.

(** A post or a page: the properties the CMS sent (and those the plugin
    adds), and the [image] property, which holds a file node once
    [post.image = ...] has stored one. *)
Record Content := {
  fields : obj;
  image : option FileNode
}.

(** A tag or an author; the request asks for [count.posts], so the nested
    [count] object is present. *)
Record Tag := {
  tag_fields : obj;
  count_posts : value
}.

Inductive ctype := TPost | TPage | TTag | TAuthor | TSettings.

Global Instance ctype_eq_dec : EqDecision ctype.
Proof. solve_decision. Defined.

(** The node descriptor handed to [createNode]. *)
Record HostNode := {
  node_id : value;
  node_type : ctype;
  node_fields : obj;
  node_image : option FileNode
}.

(** Modelled from the spec: the Record-to-Node Mapper ([PostNode],
    [PageNode], [TagNode], [AuthorNode], [SettingsNode] of [./ghost-nodes],
    which is not part of the sources).  It is a pure function whose output
    carries the record's identifier as the node's identifier, the type
    tag, and all source fields; the image link is there exactly when the
    record has it. *)
Definition Mapper (t : ctype) (r : Content) : HostNode :=
  {| node_id := get (fields r) "id";
     node_type := t;
     node_fields := fields r;
     node_image := image r |}.

Definition PostNode := Mapper TPost.
Definition PageNode := Mapper TPage.
Definition TagNode := Mapper TTag.
Definition AuthorNode := Mapper TAuthor.
Definition SettingsNode := Mapper TSettings.

Definition plain (o : obj) : Content := {| fields := o; image := None |}.

(** The five resources of the content API. *)
Inductive resource := Posts | Pages | Tags | Authors | Settings.

Global Instance resource_eq_dec : EqDecision resource.
Proof. solve_decision. Defined.

(** The calls the plugin makes on its environment, in the order they are
    made.  The asynchronous [createRemoteFileNode] is recorded when it
    settles. *)
Inductive effect :=
| Browse (r : resource)
| CreateNode (n : HostNode)
| CreateRemoteFileNode (url parentNodeId : value)
| CreateNodeField (node : string) (name : string) (v : value)
| Warn (e : error).

Abbreviation trace := (list effect).

(** *** The image side-loader *)

(** What the host answers during one side-load: the download rejects, or
    it resolves with a file node and the host then answers the two
    [createNodeField] calls ([None]: the call returns, [Some e]: it throws
    [e]); the answer to the second call is only consulted when the first
    call returned. *)
Inductive image_reply :=
| DownloadFails (e : error)
| Downloaded (f : FileNode) (originalPath_reply refId_reply : option error).

(** The frame of one call of [downloadImageAndCreateFileNode]: the host's
    trace and the local variable [fileNode] ([None]: still [undefined]). *)
Record frame := {
  host : trace;
  fileNode : option FileNode
}.

(** Statements that may throw, over the frame. *)
Definition Exec (A : Type) := frame -> frame * (error + A).

Definition ret {A} (a : A) : Exec A := fun fr => (fr, inr a).

Definition throw {A} (e : error) : Exec A := fun fr => (fr, inl e).

Definition bind {A B} (m : Exec A) (k : A -> Exec B) : Exec B :=
  fun fr =>
    match m fr with
    | (fr', inr a) => k a fr'
    | (fr', inl e) => (fr', inl e)
    end.

(** [try { m } catch (err) { h err }] *)
Definition try_catch {A} (m : Exec A) (h : error -> Exec A) : Exec A :=
  fun fr =>
    match m fr with
    | (fr', inl e) => h e fr'
    | r => r
    end.

Notation "x <- m ;; k" := (bind m (fun x => k))
  (at level 100, m at next level, right associativity).
Notation "m ;;; k" := (bind m (fun _ => k))
  (at level 100, right associativity).

Definition emit (e : effect) : Exec unit :=
  fun fr => ({| host := host fr ++ [e]; fileNode := fileNode fr |}, inr tt).

(** [await createRemoteFileNode({url, parentNodeId, ...})] *)
Definition createRemoteFileNode (url parentNodeId : value) (r : image_reply)
  : Exec FileNode :=
  emit (CreateRemoteFileNode url parentNodeId) ;;;
  match r with
  | DownloadFails e => throw e
  | Downloaded f _ _ => ret f
  end.

(** [fileNode = ...] *)
Definition assign_fileNode (f : FileNode) : Exec unit :=
  fun fr => ({| host := host fr; fileNode := Some f |}, inr tt).

(** [await createNodeField({node: fileNode, name, value})]: the host puts
    the value under [fields] of the very object it is given, or throws. *)
Definition createNodeField (name : string) (v : value) (reply : option error)
  : Exec unit :=
  fun fr =>
    match fileNode fr with
    | None => (fr, inl (TypeError "Cannot read property 'fields' of undefined"))
    | Some f =>
        let fr1 := {| host := host fr ++ [CreateNodeField (file_id f) name v];
                      fileNode := Some f |} in
        match reply with
        | Some e => (fr1, inl e)
        | None =>
            ({| host := host fr1;
                fileNode := Some {| file_id := file_id f;
                                    file_fields := <[name := v]> (file_fields f) |} |},
             inr tt)
        end
    end.

(** [console.warn('Error creating node', err)] *)
Definition console_warn (e : error) : Exec unit := emit (Warn e).

(** [downloadImageAndCreateFileNode({feature_image, id}, ...)], lines
    16-46.  The result is the final frame (trace and the returned
    [fileNode]) and whether the call threw. *)
Definition downloadImageAndCreateFileNode (feature_image id : value)
    (r : image_reply) : Exec (option FileNode) :=
  try_catch
    (f <- createRemoteFileNode feature_image id r ;;
     assign_fileNode f ;;;
     createNodeField "originalPath" feature_image
       (match r with Downloaded _ r1 _ => r1 | _ => None end) ;;;
     createNodeField "refId" id
       (match r with Downloaded _ _ r2 => r2 | _ => None end))
    console_warn ;;;
  fun fr => (fr, inr (fileNode fr)).

(** *** One post or page *)

Inductive kind := KPost | KPage.

Definition factory (k : kind) : Content -> HostNode :=
  match k with KPost => PostNode | KPage => PageNode end.

(** The promise of one [async (post) => ...] callback of [posts.map] or
    [pages.map]: suspended at its [await] with the record it closes over,
    fulfilled, or rejected. *)
Inductive task :=
| Waiting (rec : Content)
| Done
| Crashed (e : error).

Definition is_done (t : task) : bool :=
  match t with Done => true | _ => false end.

(** Lines 92-100 (and 101-109), up to the first [await]: without a feature
    image the node is created at once, with one the callback suspends on
    the side-loader. *)
Definition start_record (k : kind) (rec : Content) (h : trace) : task * trace :=
  if truthy (get (fields rec) "feature_image")
  then (Waiting rec, h)
  else (Done, h ++ [CreateNode (factory k rec)]).

(** The rest of the callback, run when the host has answered:
    [post.image = await downloadImageAndCreateFileNode(post, ...)], then
    [post.localFile___NODE = post.image.id], then [createNode(PostNode(post))].
    Reading [.id] of [undefined] throws. *)
Definition resume_record (k : kind) (rec : Content) (r : image_reply) (h : trace)
  : task * trace :=
  match downloadImageAndCreateFileNode
          (get (fields rec) "feature_image") (get (fields rec) "id") r
          {| host := h; fileNode := None |} with
  | (fr, inl e) => (Crashed e, host fr)
  | (fr, inr None) =>
      (Crashed (TypeError "Cannot read property 'id' of undefined"), host fr)
  | (fr, inr (Some f)) =>
      let rec' := {| fields := <["localFile___NODE" := VStr (file_id f)]> (fields rec);
                     image := Some f |} in
      (Done, host fr ++ [CreateNode (factory k rec')])
  end.

(** [recs.map(async (rec) => ...)]: the callbacks run in list order, each
    up to its first [await]. *)
Fixpoint map_start (k : kind) (recs : list Content) (h : trace)
  : list task * trace :=
  match recs with
  | [] => ([], h)
  | rec :: rest =>
      let '(t, h1) := start_record k rec h in
      let '(ts, h2) := map_start k rest h1 in
      (t :: ts, h2)
  end.

(** *** The callbacks of the five browse calls *)

(** [tags.forEach((tag) => { tag.postCount = tag.count.posts;
    createNode(TagNode(tag)); })], and the same for authors. *)
Fixpoint forEach_count (mk : Content -> HostNode) (l : list Tag) (h : trace) : trace :=
  match l with
  | [] => h
  | tag :: rest =>
      let tag' := plain (<["postCount" := count_posts tag]> (tag_fields tag)) in
      forEach_count mk rest (h ++ [CreateNode (mk tag')])
  end.

(** [setting.id = 1; createNode(SettingsNode(setting));] *)
Definition on_settings (setting : obj) (h : trace) : trace :=
  let setting' := <["id" := VNum 1]> setting in
  h ++ [CreateNode (SettingsNode (plain setting'))].

(** *** The orchestrator *)

(** The state of one run of [createLiveGhostNodes]: the five [fetch...]
    promises, the variables [posts] and [pages] ([None]: not assigned yet),
    the per-record promises once [posts.map] and [pages.map] have run, the
    promise the function returned, and the trace. *)
Record state := {
  fetch : resource -> status;
  posts : option (list Content);
  pages : option (list Content);
  tasks : option (list task * list task);
  result : status;
  effects : trace
}.

(** What the environment may do next: settle one of the five browse calls,
    or answer the side-load of the [i]-th post or page. *)
Inductive event :=
| PostsSettle (o : outcome (list Content))
| PagesSettle (o : outcome (list Content))
| TagsSettle (o : outcome (list Tag))
| AuthorsSettle (o : outcome (list Tag))
| SettingsSettle (o : outcome obj)
| ImageSettle (k : kind) (i : nat) (r : image_reply).

Definition resources : list resource := [Posts; Pages; Tags; Authors; Settings].

(** Lines 48-87, once [ContentAPI.configure] has returned the client: the
    five browse calls are issued, nothing has settled. *)
Definition init : state :=
  {| fetch := fun _ => Pending;
     posts := None;
     pages := None;
     tasks := None;
     result := Pending;
     effects := map Browse resources |}.

Definition set_fetch (r : resource) (p : status) (s : state) : state :=
  {| fetch := fun r' => if decide (r' = r) then p else fetch s r';
     posts := posts s; pages := pages s; tasks := tasks s;
     result := result s; effects := effects s |}.

Definition set_effects (h : trace) (s : state) : state :=
  {| fetch := fetch s; posts := posts s; pages := pages s; tasks := tasks s;
     result := result s; effects := h |}.

Definition set_posts (l : list Content) (s : state) : state :=
  {| fetch := fetch s; posts := Some l; pages := pages s; tasks := tasks s;
     result := result s; effects := effects s |}.

Definition set_pages (l : list Content) (s : state) : state :=
  {| fetch := fetch s; posts := posts s; pages := Some l; tasks := tasks s;
     result := result s; effects := effects s |}.

Definition set_tasks (ts : list task * list task) (h : trace) (s : state) : state :=
  {| fetch := fetch s; posts := posts s; pages := pages s; tasks := Some ts;
     result := result s; effects := h |}.

(** A promise settles once: a later resolution or rejection is ignored. *)
Definition settle_result (p : status) (s : state) : state :=
  match result s with
  | Pending =>
      {| fetch := fetch s; posts := posts s; pages := pages s; tasks := tasks s;
         result := p; effects := effects s |}
  | _ => s
  end.

Definition all_fulfilled (s : state) : bool :=
  forallb (fun r => is_fulfilled (fetch s r)) resources.

(** The status of [Promise.all(ps)] for per-record promises none of which
    has rejected. *)
Definition joined (ps : list task) : status :=
  if forallb is_done ps then Fulfilled else Pending.

(** Lines 90-111, the callback of the outer [Promise.all]: [posts.map] runs,
    then [pages.map], and [Promise.all] is called with the two arrays as two
    arguments.  [Promise.all] (bluebird's, line 1) reads its first argument
    only, so the returned promise follows the posts' promises. *)
Definition on_all_fetched (s : state) : state :=
  match posts s, pages s with
  | Some ps, Some pgs =>
      let '(pts, h1) := map_start KPost ps (effects s) in
      let '(pgts, h2) := map_start KPage pgs h1 in
      settle_result (joined pts) (set_tasks (pts, pgts) h2 s)
  | _, _ =>
      settle_result (Failed (TypeError "Cannot read property 'map' of undefined")) s
  end.

(** One browse call settles (lines 56-89).  A rejection rejects the outer
    [Promise.all]; a resolution runs the [.then] callback [k] of that call,
    and when it was the last of the five, the outer callback. *)
Definition browse_settles {A} (r : resource) (o : outcome A)
    (k : A -> state -> state) (s : state) : state :=
  match fetch s r with
  | Pending =>
      match o with
      | Rejected e => settle_result (Failed e) (set_fetch r (Failed e) s)
      | Resolved a =>
          let s1 := set_fetch r Fulfilled (k a s) in
          if all_fulfilled s1 then on_all_fetched s1 else s1
      end
  | _ => s
  end.

(** The host answers the side-load of the [i]-th post or page.  A post's
    promise is watched by the inner [Promise.all]; a page's is not. *)
Definition image_settles (k : kind) (i : nat) (r : image_reply) (s : state) : state :=
  match tasks s with
  | None => s
  | Some (pts, pgts) =>
      match k with
      | KPost =>
          match pts !! i with
          | Some (Waiting rec) =>
              let '(t, h) := resume_record KPost rec r (effects s) in
              let pts' := <[i := t]> pts in
              settle_result
                (match t with Crashed e => Failed e | _ => joined pts' end)
                (set_tasks (pts', pgts) h s)
          | _ => s
          end
      | KPage =>
          match pgts !! i with
          | Some (Waiting rec) =>
              let '(t, h) := resume_record KPage rec r (effects s) in
              set_tasks (pts, <[i := t]> pgts) h s
          | _ => s
          end
      end
  end.

Definition step (ev : event) (s : state) : state :=
  match ev with
  | PostsSettle o => browse_settles Posts o set_posts s
  | PagesSettle o => browse_settles Pages o set_pages s
  | TagsSettle o =>
      browse_settles Tags o
        (fun tags s => set_effects (forEach_count TagNode tags (effects s)) s) s
  | AuthorsSettle o =>
      browse_settles Authors o
        (fun authors s => set_effects (forEach_count AuthorNode authors (effects s)) s) s
  | SettingsSettle o =>
      browse_settles Settings o
        (fun setting s => set_effects (on_settings setting (effects s)) s) s
  | ImageSettle k i r => image_settles k i r s
  end.

(** A run: the events the environment delivers, in order. *)
Fixpoint run (evs : list event) (s : state) : state :=
  match evs with
  | [] => s
  | ev :: rest => run rest (step ev s)
  end.

(** The nodes created so far. *)
Definition created (h : trace) : list HostNode :=
  omap (fun e => match e with CreateNode n => Some n | _ => None end) h.

End Ingest.

(** ** The schema placeholder manager *)

Module Placeholder.

(** One element of [fakeNodes] (of [./ghost-nodes], not part of the
    sources): a module-level object shared by every activation.  [owner] is
    [node.internal.owner]. *)
Record FakeNode := {
  fake_id : string;
  owner : option string
}.

(** The calls made on the host; [HostCreateNode] records the owner marker
    the node carried when it was handed over. *)
Inductive call :=
| HostCreateNode (id : string) (owner_at_call : option string)
| HostDeleteNode (id : string)
| EmitterOn (listener : nat)
| EmitterOff (listener : nat).

(** The shared objects, the host's node store (by identifier), the
    handlers registered for [SET_SCHEMA] in registration order, the identity
    the next [onSchemaUpdate] closure gets, and the calls made so far. *)
Record world := {
  fakeNodes : list FakeNode;
  store : gset string;
  listeners : list nat;
  next_closure : nat;
  calls : list call
}.

Definition plugin_name : string := "gatsby-source-ghost".

(** The host's [createNode], as the comment on lines 122-123 describes it:
    a node that already carries an owner is refused with an error;
    otherwise the host stamps the object it was given with the plugin as its
    owner and stores it. *)
Definition host_createNode (n : FakeNode) (st : gset string) (log : list call)
  : error + (FakeNode * gset string * list call) :=
  let log' := log ++ [HostCreateNode (fake_id n) (owner n)] in
  match owner n with
  | Some _ =>
      inl (Thrown "The node internal.owner field is set automatically by Gatsby and not by plugins")
  | None =>
      inr ({| fake_id := fake_id n; owner := Some plugin_name |},
           {[ fake_id n ]} ∪ st, log')
  end.

(** The host's [deleteNode({node})]. *)
Definition host_deleteNode (n : FakeNode) (st : gset string) (log : list call)
  : gset string * list call :=
  (st ∖ {[ fake_id n ]}, log ++ [HostDeleteNode (fake_id n)]).

(** Lines 121-126: [fakeNodes.forEach((node) => { delete node.internal.owner;
    actions.createNode(node); })].  The objects are updated in place; a
    throw leaves the loop. *)
Fixpoint forEach_create (nodes : list FakeNode) (st : gset string) (log : list call)
  : error + (list FakeNode * gset string * list call) :=
  match nodes with
  | [] => inr ([], st, log)
  | node :: rest =>
      let node1 := {| fake_id := fake_id node; owner := None |} in
      match host_createNode node1 st log with
      | inl e => inl e
      | inr (node2, st1, log1) =>
          match forEach_create rest st1 log1 with
          | inl e => inl e
          | inr (rest', st2, log2) => inr (node2 :: rest', st2, log2)
          end
      end
  end.

(** Lines 130-132: [fakeNodes.forEach((node) => { actions.deleteNode({node}); })]. *)
Fixpoint forEach_delete (nodes : list FakeNode) (st : gset string) (log : list call)
  : gset string * list call :=
  match nodes with
  | [] => (st, log)
  | node :: rest =>
      let '(st1, log1) := host_deleteNode node st log in
      forEach_delete rest st1 log1
  end.

(** [emitter.off(type, handler)] of the host's emitter: the first
    registration of the handler is removed, if there is one. *)
Fixpoint emitter_off (c : nat) (ls : list nat) : list nat :=
  match ls with
  | [] => []
  | c' :: rest => if decide (c' = c) then rest else c' :: emitter_off c rest
  end.

(** Lines 119-138, [createTemporaryFakeNodes]. *)
Definition createTemporaryFakeNodes (w : world) : error + world :=
  match forEach_create (fakeNodes w) (store w) (calls w) with
  | inl e => inl e
  | inr (nodes, st, log) =>
      let c := next_closure w in
      inr {| fakeNodes := nodes;
             store := st;
             listeners := listeners w ++ [c];
             next_closure := S c;
             calls := log ++ [EmitterOn c] |}
  end.

(** Lines 128-134, the closure [onSchemaUpdate] of identity [c]. *)
Definition onSchemaUpdate (c : nat) (w : world) : world :=
  let '(st, log) := forEach_delete (fakeNodes w) (store w) (calls w) in
  {| fakeNodes := fakeNodes w;
     store := st;
     listeners := emitter_off c (listeners w);
     next_closure := next_closure w;
     calls := log ++ [EmitterOff c] |}.

(** The host emits [SET_SCHEMA]: the handlers registered at that moment are
    called in registration order (the emitter iterates over a copy of its
    list). *)
Fixpoint call_handlers (snapshot : list nat) (w : world) : world :=
  match snapshot with
  | [] => w
  | c :: rest => call_handlers rest (onSchemaUpdate c w)
  end.

Definition emit_SET_SCHEMA (w : world) : world := call_handlers (listeners w) w.

End Placeholder.

(** The two lifecycle hooks (lines 141-154).  [sourceNodes] activates the
    placeholders and returns the promise of [createLiveGhostNodes], whose
    run starts in [Ingest.init]; [onPreExtractQueries] only activates the
    placeholders again. *)
Definition sourceNodes (w : Placeholder.world) : error + (Placeholder.world * Ingest.state) :=
  match Placeholder.createTemporaryFakeNodes w with
  | inl e => inl e
  | inr w' => inr (w', Ingest.init)
  end.

Definition onPreExtractQueries (w : Placeholder.world) : error + Placeholder.world :=
  Placeholder.createTemporaryFakeNodes w.

(** ** Vocabulary of the properties *)

Import Ingest.

(** A call of the side-loader starts with [fileNode] undefined. *)
Definition fresh (h : trace) : frame := {| host := h; fileNode := None |}.

(** The file node once [createNodeField] has put [v] under [name]. *)
Definition annotate (f : FileNode) (name : string) (v : value) : FileNode :=
  {| file_id := file_id f; file_fields := <[name := v]> (file_fields f) |}.

(** The error a side-load fails with, if it fails: the download's, else the
    first annotation's, else the second annotation's. *)
Definition failure_of (r : image_reply) : option error :=
  match r with
  | DownloadFails e => Some e
  | Downloaded _ (Some e) _ => Some e
  | Downloaded _ None (Some e) => Some e
  | Downloaded _ None None => None
  end.


(** The host calls of a side-load, up to the point where it fails. *)
Definition sideload_calls (fi id : value) (r : image_reply) : trace :=
  CreateRemoteFileNode fi id ::
  match r with
  | DownloadFails _ => []
  | Downloaded f (Some _) _ => [CreateNodeField (file_id f) "originalPath" fi]
  | Downloaded f None _ =>
      [CreateNodeField (file_id f) "originalPath" fi;
       CreateNodeField (file_id f) "refId" id]
  end.

(** What the side-loader returns: nothing when the download failed, else the
    downloaded node with the annotations that went through. *)
Definition sideload_result (fi id : value) (r : image_reply) : option FileNode :=
  match r with
  | DownloadFails _ => None
  | Downloaded f (Some _) _ => Some f
  | Downloaded f None (Some _) => Some (annotate f "originalPath" fi)
  | Downloaded f None None =>
      Some (annotate (annotate f "originalPath" fi) "refId" id)
  end.

(** An effect a step may add.  Tag and author nodes and the settings node
    (with identifier [1]) may come at any time; post and page nodes and the
    calls of the side-loader only once the per-record processing has
    started ([live]); a browse call never. *)
Definition step_effect (live : bool) (e : effect) : Prop :=
  match e with
  | Browse _ => False
  | CreateNode n =>
      match node_type n with
      | TTag | TAuthor => True
      | TSettings => node_id n = VNum 1
      | TPost | TPage => live = true
      end
  | _ => live = true
  end.

Definition started (s : state) : bool :=
  match tasks s with Some _ => true | None => false end.

Definition rejected (p : status) : Prop := exists e, p = Failed e.

(** What holds in every state a run can reach. *)
Record reachable_inv (s : state) : Prop := {
  inv_trace : exists rest,
      effects s = map Browse resources ++ rest /\ Forall (step_effect (started s)) rest;
  inv_started : started s = true -> forall r, fetch s r = Fulfilled;
  inv_rejected : (exists r, rejected (fetch s r)) ->
      exists r e, fetch s r = Failed e /\ result s = Failed e;
  inv_settled : result s <> Pending ->
      (exists r, rejected (fetch s r)) \/ (forall r, fetch s r = Fulfilled);
  inv_fulfilled : result s = Fulfilled ->
      exists pts pgts, tasks s = Some (pts, pgts) /\ forallb is_done pts = true
}.

(** A [.then] callback of a browse call: it touches no promise, and adds
    only effects that may come before the per-record processing. *)
Definition quiet_callback {A : Type} (k : A -> state -> state) : Prop :=
  forall (a : A) (s : state),
    fetch (k a s) = fetch s /\ tasks (k a s) = tasks s /\ result (k a s) = result s
    /\ exists extra, effects (k a s) = effects s ++ extra
                     /\ Forall (step_effect false) extra.

(** The reading of "on a fetch failure no node of any type is created": in
    every run in which a browse call has rejected, the returned promise is
    rejected and the trace holds no [createNode]. *)
Definition no_partial_commit : Prop :=
  forall evs : list event,
    let s := run evs init in
    (exists r, rejected (fetch s r)) ->
    rejected (result s) /\ created (effects s) = [].

(** The browse calls made so far. *)
Definition browsed (h : trace) : list resource :=
  omap (fun e => match e with Browse r => Some r | _ => None end) h.

(** The event "the browse call of [r] rejects with [e]". *)
Definition rejection (r : resource) (e : error) : event :=
  match r with
  | Posts => PostsSettle (Rejected e)
  | Pages => PagesSettle (Rejected e)
  | Tags => TagsSettle (Rejected e)
  | Authors => AuthorsSettle (Rejected e)
  | Settings => SettingsSettle (Rejected e)
  end.

(** *** Sample data *)

Definition sample_file : FileNode := {| file_id := "file-1"; file_fields := ∅ |}.

Definition sample_url : value := VStr "https://cms.example/cover.png".

Definition plain_post : Content := plain (<["id" := VStr "p0"]> ∅).

Definition image_post : Content :=
  plain (<["id" := VStr "p1"]> (<["feature_image" := sample_url]> ∅)).

Definition image_page : Content :=
  plain (<["id" := VStr "pg1"]> (<["feature_image" := sample_url]> ∅)).

Definition sample_tag : Tag :=
  {| tag_fields := <["id" := VStr "t1"]> ∅; count_posts := VNum 3 |}.

(** A settings object that does carry an identifier. *)
Definition odd_settings : obj := <["id" := VStr "cms-7"]> (<["title" := VStr "Blog"]> ∅).

(** A run in which everything resolves, with one post with a feature image
    and no page. *)
Definition fetched_one_image_post : list event :=
  [PostsSettle (Resolved [image_post]); PagesSettle (Resolved []);
   TagsSettle (Resolved []); AuthorsSettle (Resolved []);
   SettingsSettle (Resolved ∅)].

(** A run in which everything resolves, with no post and one page with a
    feature image. *)
Definition fetched_one_image_page : list event :=
  [PostsSettle (Resolved []); PagesSettle (Resolved [image_page]);
   TagsSettle (Resolved []); AuthorsSettle (Resolved []);
   SettingsSettle (Resolved ∅)].

(** *** Placeholders *)

Import Placeholder.

(** A fake node as the host leaves it after [createNode]. *)
Definition stamp (n : FakeNode) : FakeNode :=
  {| fake_id := fake_id n; owner := Some plugin_name |}.

Definition fake_ids (nodes : list FakeNode) : gset string :=
  list_to_set (map fake_id nodes).

Definition create_call (n : FakeNode) : call := HostCreateNode (fake_id n) None.

Definition delete_call (n : FakeNode) : call := HostDeleteNode (fake_id n).

(** Two fake nodes, one of them with an owner marker left by an earlier
    activation, in a host that knows nothing yet. *)
Definition sample_world : world :=
  {| fakeNodes := [ {| fake_id := "Ghost__Post__fake"; owner := None |};
                    {| fake_id := "Ghost__Tag__fake"; owner := Some plugin_name |} ];
     store := ∅;
     listeners := [];
     next_closure := 0;
     calls := [] |}.

(** [sample_world] after one activation. *)
Definition sample_world_active : world :=
  {| fakeNodes := [ {| fake_id := "Ghost__Post__fake"; owner := Some plugin_name |};
                    {| fake_id := "Ghost__Tag__fake"; owner := Some plugin_name |} ];
     store := {[ "Ghost__Post__fake"; "Ghost__Tag__fake" ]};
     listeners := [0];
     next_closure := 1;
     calls := [HostCreateNode "Ghost__Post__fake" None;
               HostCreateNode "Ghost__Tag__fake" None;
               EmitterOn 0] |}.

(** *** Further vocabulary *)

(** The warnings logged in a trace. *)
Definition warnings (h : trace) : list error :=
  omap (fun e => match e with Warn er => Some er | _ => None end) h.

(** The type tag of the nodes of posts and of pages. *)
Definition kind_type (k : kind) : ctype :=
  match k with KPost => TPost | KPage => TPage end.

Definition has_image (rec : Content) : bool :=
  truthy (get (fields rec) "feature_image").

(** The promise of a record's callback right after [posts.map]. *)
Definition task_of (rec : Content) : task :=
  if has_image rec then Waiting rec else Done.

(** The records of a list that have no feature image. *)
Definition without_image (recs : list Content) : list Content :=
  filter (fun rec => has_image rec = false) recs.

(** The tag or author as its callback hands it to the mapper. *)
Definition counted (tag : Tag) : Content :=
  plain (<["postCount" := count_posts tag]> (tag_fields tag)).

(** How the promise of record [rec] relates to the trace [h]: a waiting
    callback closes over that very record, which has a feature image; a
    fulfilled one has created a node of the record's type and identifier. *)
Definition task_ok (k : kind) (h : trace) (rec : Content) (t : task) : Prop :=
  match t with
  | Waiting rec' => rec' = rec /\ has_image rec = true
  | Done => exists n, In (CreateNode n) h
                      /\ node_type n = kind_type k
                      /\ node_id n = get (fields rec) "id"
  | Crashed _ => True
  end.

(** A side-loader call in the trace is for a fetched post or page that has
    a feature image. *)
Definition requested_by (ps pgs : list Content) (e : effect) : Prop :=
  match e with
  | CreateRemoteFileNode url pid =>
      exists rec, (In rec ps \/ In rec pgs)
                  /\ has_image rec = true
                  /\ url = get (fields rec) "feature_image"
                  /\ pid = get (fields rec) "id"
  | _ => True
  end.

(** Once the per-record processing has started: [posts] and [pages] are
    assigned, every promise matches its record, and every side-loader call
    was asked for by one of the records. *)
Definition records_inv (s : state) : Prop :=
  forall pts pgts, tasks s = Some (pts, pgts) ->
    exists ps pgs,
      posts s = Some ps /\ pages s = Some pgs
      /\ Forall2 (task_ok KPost (effects s)) ps pts
      /\ Forall2 (task_ok KPage (effects s)) pgs pgts
      /\ Forall (requested_by ps pgs) (effects s).

(** The events that answer the side-load of a page. *)
Definition is_page_image (ev : event) : bool :=
  match ev with ImageSettle KPage _ _ => true | _ => false end.

(** Two states that agree on everything the returned promise depends on:
    the five fetches, [posts] and [pages], the posts' promises and the
    returned promise itself. *)
Definition same_outcome (s s' : state) : Prop :=
  (forall r, fetch s r = fetch s' r)
  /\ posts s = posts s'
  /\ pages s = pages s'
  /\ result s = result s'
  /\ option_map fst (tasks s) = option_map fst (tasks s').

(** [sample_world] after two activations. *)
Definition sample_world_twice : world :=
  {| fakeNodes := [ {| fake_id := "Ghost__Post__fake"; owner := Some plugin_name |};
                    {| fake_id := "Ghost__Tag__fake"; owner := Some plugin_name |} ];
     store := {[ "Ghost__Post__fake"; "Ghost__Tag__fake" ]};
     listeners := [0; 1];
     next_closure := 2;
     calls := [HostCreateNode "Ghost__Post__fake" None;
               HostCreateNode "Ghost__Tag__fake" None;
               EmitterOn 0;
               HostCreateNode "Ghost__Post__fake" None;
               HostCreateNode "Ghost__Tag__fake" None;
               EmitterOn 1] |}.

(** What [post.image.id] throws when the side-loader returned nothing. *)
Definition undefined_id : error :=
  TypeError "Cannot read property 'id' of undefined".

(** Where a rejection of the returned promise comes from, in every state a
    run can reach: [posts] and [pages] are assigned once their call has
    resolved; a rejected promise carries the error of a rejected browse
    call or the [TypeError] of a post's callback that threw; and a post's
    callback that threw has rejected the promise. *)
Definition failure_inv (s : state) : Prop :=
  (fetch s Posts = Fulfilled -> posts s <> None)
  /\ (fetch s Pages = Fulfilled -> pages s <> None)
  /\ (forall e, result s = Failed e ->
        (exists r, fetch s r = Failed e)
        \/ (e = undefined_id
            /\ exists pts pgts i, tasks s = Some (pts, pgts)
                                  /\ pts !! i = Some (Crashed e)))
  /\ (forall pts pgts i e, tasks s = Some (pts, pgts) ->
        pts !! i = Some (Crashed e) -> rejected (result s)).

(** A [.then] callback of the browse call of [r] assigns [posts] when [r]
    is the posts call, [pages] when it is the pages call, and leaves
    assigned variables assigned. *)
Definition assigning_callback {A : Type} (r : resource) (k : A -> state -> state) : Prop :=
  forall (a : A) (s : state),
    (r = Posts \/ posts s <> None -> posts (k a s) <> None)
    /\ (r = Pages \/ pages s <> None -> pages (k a s) <> None).

(** The nodes of type [t] created in a trace. *)
Definition nodes_of (t : ctype) (h : trace) : list HostNode :=
  List.filter (fun n => bool_decide (node_type n = t)) (created h).

(** How many of the callbacks have finished with their node created. *)
Definition finished (ts : list task) : nat := length (List.filter is_done ts).

(** Once the per-record processing has started, there are as many post
    nodes as finished post callbacks, and as many page nodes as finished
    page callbacks. *)
Definition count_inv (s : state) : Prop :=
  forall pts pgts, tasks s = Some (pts, pgts) ->
    length (nodes_of TPost (effects s)) = finished pts
    /\ length (nodes_of TPage (effects s)) = finished pgts.

(** The calls of one [onSchemaUpdate] handler. *)
Definition handler_calls (nodes : list FakeNode) (c : nat) : list call :=
  map delete_call nodes ++ [EmitterOff c].

(** ** The per-record callbacks, await by await

    [Ingest.resume_record] runs what follows the download of one record in
    one piece, on a file node of its own.  In the source the side-loader and
    the callback suspend at four [await]s (lines 20, 30, 36 and 94), the
    callbacks of all posts and pages run interleaved, and
    [createNodeField] is handed the host's file node object itself; the host
    may deliver one object to several side-loads.  This model keeps the
    host's objects in a store addressed by reference and advances one
    callback by one piece at a time. *)

Module Interleaved.

(** A reference to a file node object of the host. *)
Abbreviation ref := nat.

(** Where the callback of one record (lines 92-100, 101-109, with the
    side-loader of lines 16-46 it calls) stands. *)
Inductive point :=
| AtDownload
    (* suspended at [await createRemoteFileNode(...)], line 20 *)
| AtOriginalPath (l : ref)
    (* [fileNode] is the object [l], [originalPath] is written;
       suspended at the [await] of line 30 *)
| AtRefId (l : ref)
    (* [refId] is written; suspended at the [await] of line 36 *)
| AtReturn (res : option ref) (caught : bool)
    (* the side-loader has returned [fileNode]; the callback is suspended
       at the [await] of line 94; [caught]: the [catch] block has run *)
| Finished (img : option (ref * bool))
    (* [createNode] is called; for a record with a feature image: the
       object it is linked to, and whether the [catch] block had run *)
| Threw (e : error).

(** The host's file node objects, the callbacks of the posts followed by
    those of the pages, each with the record it closes over, and the calls
    made so far. *)
Record pool := {
  heap : ref -> FileNode;
  callbacks : list (kind * Content * point);
  log : trace
}.

(** The host's [createNodeField({node, name, value})] when it returns: the
    value is put under [fields] of the object [l] itself. *)
Definition write (l : ref) (name : string) (v : value) (hp : ref -> FileNode)
  : ref -> FileNode :=
  fun l' => if decide (l' = l) then annotate (hp l) name v else hp l'.




(** What happens next: the host settles the download of callback [i]
    (rejecting, or resolving with the object [l]) and answers the
    [createNodeField] call made right after it ([None]: it returns,
    [Some e]: it throws [e]); or callback [i], suspended at a later
    [await], is resumed, with the host's answer to the [createNodeField]
    call it makes, if it makes one. *)
Inductive event :=
| Download (i : nat) (o : outcome ref) (a : option error)
| Resume (i : nat) (a : option error).

Definition set_point (i : nat) (k : kind) (rec : Content) (p : point)
    (hp : ref -> FileNode) (h : trace) (s : pool) : pool :=
  {| heap := hp; callbacks := <[i := (k, rec, p)]> (callbacks s); log := h |}.

Definition step (ev : event) (s : pool) : pool :=
  match ev with
  | Download i o a =>
      match callbacks s !! i with
      | Some (k, rec, AtDownload) =>
          match o with
          | Rejected e =>
              (* lines 41-45: catch, warn, return the undefined [fileNode] *)
              set_point i k rec (AtReturn None true) (heap s) (log s ++ [Warn e]) s
          | Resolved l =>
              (* lines 20, 30-34 *)
              let fi := get (fields rec) "feature_image" in
              let h1 := log s ++ [CreateNodeField (file_id (heap s l)) "originalPath" fi] in
              match a with
              | Some e =>
                  set_point i k rec (AtReturn (Some l) true) (heap s) (h1 ++ [Warn e]) s
              | None =>
                  set_point i k rec (AtOriginalPath l)
                    (write l "originalPath" fi (heap s)) h1 s
              end
          end
      | _ => s
      end
  | Resume i a =>
      match callbacks s !! i with
      | Some (k, rec, AtOriginalPath l) =>
          (* lines 36-40 *)
          let id := get (fields rec) "id" in
          let h1 := log s ++ [CreateNodeField (file_id (heap s l)) "refId" id] in
          match a with
          | Some e =>
              set_point i k rec (AtReturn (Some l) true) (heap s) (h1 ++ [Warn e]) s
          | None =>
              set_point i k rec (AtRefId l) (write l "refId" id (heap s)) h1 s
          end
      | Some (k, rec, AtRefId l) =>
          (* line 45 *)
          set_point i k rec (AtReturn (Some l) false) (heap s) (log s) s
      | Some (k, rec, AtReturn None c) =>
          (* lines 94-96: [post.image.id] of [undefined] *)
          set_point i k rec (Threw undefined_id) (heap s) (log s) s
      | Some (k, rec, AtReturn (Some l) c) =>
          (* lines 94-99: the node is made from the record with [image] the
             object as it is now and the link its identifier *)
          let rec' := {| fields := <["localFile___NODE" := VStr (file_id (heap s l))]>
                                     (fields rec);
                         image := Some (heap s l) |} in
          set_point i k rec (Finished (Some (l, c))) (heap s)
            (log s ++ [CreateNode (factory k rec')]) s
      | _ => s
      end
  end.

Fixpoint run (evs : list event) (s : pool) : pool :=
  match evs with
  | [] => s
  | ev :: rest => run rest (step ev s)
  end.















End Interleaved.

(** ** The image side-loader *)

Lemma downloadImageAndCreateFileNode_eq (fi id : value) (r : image_reply) (h : trace) :
  downloadImageAndCreateFileNode fi id r (fresh h) =
  ({| host := h ++ sideload_calls fi id r ++
              match failure_of r with Some e => [Warn e] | None => [] end;
      fileNode := sideload_result fi id r |},
   inr (sideload_result fi id r)).
Proof.
  destruct r as [e | f [e1|] [e2|]];
    cbv [downloadImageAndCreateFileNode try_catch bind createRemoteFileNode emit
         throw ret assign_fileNode createNodeField console_warn fresh
         sideload_calls sideload_result failure_of annotate host fileNode];
    cbn [app]; rewrite <- ?app_assoc; reflexivity.
Qed.




(** ** One post or page *)

Lemma start_record_plain (k : kind) (rec : Content) (h : trace) :
  truthy (get (fields rec) "feature_image") = false ->
  start_record k rec h = (Done, h ++ [CreateNode (factory k rec)]).
Proof. intros Hf. unfold start_record. rewrite Hf. reflexivity. Qed.

Lemma start_record_image (k : kind) (rec : Content) (h : trace) :
  truthy (get (fields rec) "feature_image") = true ->
  start_record k rec h = (Waiting rec, h).
Proof. intros Hf. unfold start_record. rewrite Hf. reflexivity. Qed.

Lemma resume_record_eq (k : kind) (rec : Content) (r : image_reply) (h : trace) :
  let fi := get (fields rec) "feature_image" in
  let id := get (fields rec) "id" in
  let h' := h ++ sideload_calls fi id r ++
            match failure_of r with Some e => [Warn e] | None => [] end in
  resume_record k rec r h =
  match sideload_result fi id r with
  | None => (Crashed (TypeError "Cannot read property 'id' of undefined"), h')
  | Some f =>
      (Done,
       h' ++ [CreateNode (factory k
                {| fields := <["localFile___NODE" := VStr (file_id f)]> (fields rec);
                   image := Some f |})])
  end.
Proof.
  intros fi id h'. unfold resume_record.
  fold fi id. change {| host := h; fileNode := None |} with (fresh h).
  rewrite downloadImageAndCreateFileNode_eq. cbn [host].
  destruct (sideload_result fi id r); reflexivity.
Qed.

Lemma factory_fields (k : kind) (rec : Content) :
  node_fields (factory k rec) = fields rec /\ node_image (factory k rec) = image rec
  /\ node_id (factory k rec) = get (fields rec) "id".
Proof. destruct k; repeat split. Qed.

(** ** Invariants of a run *)

Lemma step_effect_mono (live : bool) (e : effect) :
  step_effect false e -> step_effect live e.
Proof.
  destruct e as [r | n | u p | f nm v | er]; cbn; try discriminate; auto.
  destruct (node_type n); auto; discriminate.
Qed.

Lemma step_effect_live (live : bool) (e : effect) :
  step_effect live e -> step_effect true e.
Proof.
  destruct e as [r | n | u p | f nm v | er]; cbn; auto.
  destruct (node_type n); auto.
Qed.

Lemma all_fulfilled_spec (s : state) :
  all_fulfilled s = true <-> forall r, fetch s r = Fulfilled.
Proof.
  unfold all_fulfilled, resources. cbn [forallb]. split.
  - intros H r.
    repeat (apply andb_prop in H; destruct H as [? H]).
    destruct r;
      match goal with
      | Hr : is_fulfilled (fetch s ?x) = true |- fetch s ?x = _ =>
          destruct (fetch s x); [discriminate Hr | reflexivity | discriminate Hr]
      end.
  - intros H. rewrite !H. reflexivity.
Qed.

Lemma result_settle_result (p : status) (s : state) :
  result (settle_result p s) = if is_pending (result s) then p else result s.
Proof.
  unfold settle_result. destruct (result s) eqn:E; cbn; rewrite ?E; reflexivity.
Qed.

Lemma settle_result_others (p : status) (s : state) :
  fetch (settle_result p s) = fetch s
  /\ tasks (settle_result p s) = tasks s
  /\ effects (settle_result p s) = effects s
  /\ posts (settle_result p s) = posts s
  /\ pages (settle_result p s) = pages s.
Proof. unfold settle_result. destruct (result s); repeat split. Qed.

Lemma forEach_count_effects (mk : Content -> HostNode) (l : list Tag) (h : trace) :
  (forall c, node_type (mk c) = TTag \/ node_type (mk c) = TAuthor) ->
  exists extra, forEach_count mk l h = h ++ extra /\ Forall (step_effect false) extra.
Proof.
  intros Hmk. revert h. induction l as [| tag rest IH]; intros h; cbn [forEach_count].
  - exists []. split; [symmetry; apply app_nil_r | constructor].
  - destruct (IH (h ++ [CreateNode (mk (plain (<["postCount" := count_posts tag]> (tag_fields tag))))]))
      as (extra & -> & Hextra).
    eexists (_ :: extra). split; [rewrite <- app_assoc; reflexivity |].
    constructor; [| exact Hextra].
    cbn. destruct (Hmk (plain (<["postCount" := count_posts tag]> (tag_fields tag)))) as [-> | ->]; exact I.
Qed.

Lemma start_record_spec (k : kind) (rec : Content) (h : trace) :
  exists extra, snd (start_record k rec h) = h ++ extra
    /\ Forall (step_effect true) extra
    /\ (fst (start_record k rec h) = Done \/ fst (start_record k rec h) = Waiting rec).
Proof.
  unfold start_record. destruct (truthy _).
  - exists []. cbn. rewrite app_nil_r. repeat split; auto.
  - eexists [_]. cbn. repeat split; auto.
    constructor; [| constructor]. destruct k; reflexivity.
Qed.

Lemma map_start_effects (k : kind) (recs : list Content) (h : trace) :
  exists extra, snd (map_start k recs h) = h ++ extra /\ Forall (step_effect true) extra.
Proof.
  revert h. induction recs as [| rec rest IH]; intros h; cbn [map_start].
  - exists []. cbn. rewrite app_nil_r. split; [reflexivity | constructor].
  - destruct (start_record_spec k rec h) as (e1 & H1 & F1 & _).
    destruct (start_record k rec h) as [t h1]. cbn in H1. subst h1.
    destruct (IH (h ++ e1)) as (e2 & H2 & F2).
    destruct (map_start k rest (h ++ e1)) as [ts h2]. cbn in H2 |- *. subst h2.
    exists (e1 ++ e2). split; [symmetry; apply app_assoc | apply Forall_app; auto].
Qed.

Lemma resume_record_spec (k : kind) (rec : Content) (r : image_reply) (h : trace) :
  exists extra, snd (resume_record k rec r h) = h ++ extra
    /\ Forall (step_effect true) extra
    /\ (fst (resume_record k rec r h) = Done
        \/ exists e, fst (resume_record k rec r h) = Crashed e).
Proof.
  rewrite resume_record_eq.
  set (fi := get (fields rec) "feature_image"). set (id := get (fields rec) "id").
  assert (Hcalls : Forall (step_effect true)
            (sideload_calls fi id r ++
             match failure_of r with Some e => [Warn e] | None => [] end)).
  { apply Forall_app. split.
    - destruct r as [e | f [e1|] [e2|]]; repeat constructor.
    - destruct (failure_of r); repeat constructor. }
  destruct (sideload_result fi id r) as [f |]; cbn [fst snd].
  - eexists (_ ++ [_]). split; [rewrite <- app_assoc; reflexivity |].
    split; [| left; reflexivity].
    apply Forall_app. split; [exact Hcalls |].
    constructor; [| constructor]. destruct k; reflexivity.
  - eexists. split; [reflexivity |]. split; [exact Hcalls | right; eauto].
Qed.

Lemma forallb_is_done_lookup (ts : list task) (i : nat) (rec : Content) :
  forallb is_done ts = true -> ts !! i = Some (Waiting rec) -> False.
Proof.
  revert i. induction ts as [| t ts IH]; intros i Hall Hi; [discriminate Hi |].
  cbn in Hall. apply andb_prop in Hall as [Ht Hts].
  destruct i as [| i]; cbn in Hi.
  - injection Hi as ->. discriminate Ht.
  - exact (IH i Hts Hi).
Qed.

Lemma init_inv : reachable_inv init.
Proof.
  constructor.
  - exists []. split; [symmetry; apply app_nil_r | constructor].
  - discriminate.
  - intros [r [e He]]. discriminate He.
  - intros H. exfalso. apply H. reflexivity.
  - discriminate.
Qed.

Lemma not_started_while_pending (s : state) (r : resource) :
  reachable_inv s -> fetch s r = Pending -> tasks s = None /\ result s <> Fulfilled.
Proof.
  intros I Hr.
  assert (Hn : tasks s = None).
  { destruct (tasks s) eqn:Et; [| reflexivity].
    pose proof (inv_started s I) as Hs. unfold started in Hs. rewrite Et in Hs.
    rewrite (Hs eq_refl r) in Hr. discriminate Hr. }
  split; [exact Hn |].
  intros Hf. destruct (inv_fulfilled s I Hf) as (pts & pgts & Ht & _).
  rewrite Hn in Ht. discriminate Ht.
Qed.

Lemma resolved_inv {A : Type} (r : resource) (k : A -> state -> state) (a : A) (s : state) :
  quiet_callback k -> reachable_inv s -> fetch s r = Pending ->
  reachable_inv (set_fetch r Fulfilled (k a s))
  /\ result (set_fetch r Fulfilled (k a s)) <> Fulfilled.
Proof.
  intros Hk I Hr.
  destruct (Hk a s) as (Hf & Ht & Hres & extra & He & HF).
  destruct (not_started_while_pending s r I Hr) as [Hnone Hnf].
  split; [| cbn [result set_fetch]; rewrite Hres; exact Hnf].
  constructor; unfold started; cbn [fetch tasks result effects set_fetch];
    rewrite ?Hf, ?Ht, ?Hres, ?He, ?Hnone.
  - destruct (inv_trace s I) as (rest & E & F).
    unfold started in F. rewrite Hnone in F.
    exists (rest ++ extra). split; [rewrite E, app_assoc; reflexivity |].
    apply Forall_app. split; assumption.
  - discriminate.
  - intros [r' [e Hr']]. destruct (decide (r' = r)) as [-> | Hne]; [discriminate Hr' |].
    destruct (inv_rejected s I) as (r0 & e0 & H0 & Hres0); [exists r', e; exact Hr' |].
    exists r0, e0. split; [| exact Hres0].
    destruct (decide (r0 = r)) as [-> | _]; [congruence | exact H0].
  - intros Hp. destruct (inv_settled s I Hp) as [[r' [e Hr']] | Hall].
    + left. exists r', e. destruct (decide (r' = r)) as [-> | _]; [congruence | exact Hr'].
    + rewrite Hall in Hr. discriminate Hr.
  - intros Hfu. contradiction.
Qed.

Lemma rejected_inv (r : resource) (e : error) (s : state) :
  reachable_inv s -> fetch s r = Pending ->
  reachable_inv (settle_result (Failed e) (set_fetch r (Failed e) s)).
Proof.
  intros I Hr.
  destruct (not_started_while_pending s r I Hr) as [Hnone Hnf].
  destruct (settle_result_others (Failed e) (set_fetch r (Failed e) s))
    as (Hf & Ht & He & _ & _).
  pose proof (result_settle_result (Failed e) (set_fetch r (Failed e) s)) as Hres.
  cbn [fetch tasks result effects set_fetch] in Hf, Ht, He, Hres.
  constructor; unfold started; rewrite ?Hf, ?Ht, ?He, ?Hres, ?Hnone.
  - destruct (inv_trace s I) as (rest & E & F).
    unfold started in F. rewrite Hnone in F. exists rest. auto.
  - discriminate.
  - intros _. destruct (result s) as [| | e1] eqn:Eres; cbn [is_pending].
    + exists r, e. split; [| reflexivity].
      destruct (decide (r = r)); [reflexivity | contradiction].
    + contradiction.
    + destruct (inv_settled s I) as [Hrej | Hall]; [congruence | |].
      * destruct (inv_rejected s I Hrej) as (r0 & e0 & H0 & Hres0).
        exists r0, e0. split; [| congruence].
        destruct (decide (r0 = r)) as [-> | _]; [congruence | exact H0].
      * rewrite Hall in Hr. discriminate Hr.
  - intros _. left. exists r, e.
    destruct (decide (r = r)); [reflexivity | contradiction].
  - destruct (result s) eqn:Eres; cbn [is_pending]; [discriminate | contradiction | discriminate].
Qed.

Lemma on_all_fetched_inv (s : state) :
  reachable_inv s -> (forall r, fetch s r = Fulfilled) -> result s <> Fulfilled ->
  reachable_inv (on_all_fetched s).
Proof.
  intros I Hall Hnf. unfold on_all_fetched.
  assert (Hno : ~ exists r, rejected (fetch s r)).
  { intros [r [e Hr]]. rewrite Hall in Hr. discriminate Hr. }
  destruct (posts s) as [ps |], (pages s) as [pgs |].
  1: { destruct (map_start_effects KPost ps (effects s)) as (e1 & H1 & F1).
       destruct (map_start KPost ps (effects s)) as [pts h1]. cbn [snd] in H1. subst h1.
       destruct (map_start_effects KPage pgs (effects s ++ e1)) as (e2 & H2 & F2).
       destruct (map_start KPage pgs (effects s ++ e1)) as [pgts h2]. cbn [snd] in H2. subst h2.
       destruct (settle_result_others (joined pts)
                   (set_tasks (pts, pgts) ((effects s ++ e1) ++ e2) s))
         as (Hf & Ht & He & _ & _).
       pose proof (result_settle_result (joined pts)
                     (set_tasks (pts, pgts) ((effects s ++ e1) ++ e2) s)) as Hres.
       cbn [fetch tasks result effects set_tasks] in Hf, Ht, He, Hres.
       constructor; unfold started; rewrite ?Hf, ?Ht, ?He, ?Hres.
       - destruct (inv_trace s I) as (rest & E & F).
         exists (rest ++ e1 ++ e2). split; [rewrite E, <- !app_assoc; reflexivity |].
         apply Forall_app. split; [| apply Forall_app; split; assumption].
         eapply Forall_impl; [exact F |]. intros x. apply step_effect_live.
       - intros _. exact Hall.
       - intros Hrej. contradiction.
       - intros _. right. exact Hall.
       - destruct (result s) eqn:Eres; cbn [is_pending]; [| contradiction | discriminate].
         unfold joined. destruct (forallb is_done pts) eqn:Ed; [| discriminate].
         intros _. exists pts, pgts. auto. }
  all: destruct (settle_result_others
                   (Failed (TypeError "Cannot read property 'map' of undefined")) s)
         as (Hf & Ht & He & _ & _);
       pose proof (result_settle_result
                     (Failed (TypeError "Cannot read property 'map' of undefined")) s)
         as Hres;
       constructor; unfold started; rewrite ?Hf, ?Ht, ?He, ?Hres;
       [ exact (inv_trace s I)
       | intros _; exact Hall
       | intros Hrej; contradiction
       | intros _; right; exact Hall
       | destruct (result s) eqn:Eres; cbn [is_pending];
         [discriminate | contradiction | discriminate] ].
Qed.

Lemma browse_settles_inv {A : Type} (r : resource) (o : outcome A)
    (k : A -> state -> state) (s : state) :
  quiet_callback k -> reachable_inv s -> reachable_inv (browse_settles r o k s).
Proof.
  intros Hk I. unfold browse_settles.
  destruct (fetch s r) eqn:Hr; [| exact I | exact I].
  destruct o as [a | e].
  - destruct (resolved_inv r k a s Hk I Hr) as [I1 Hnf].
    destruct (all_fulfilled (set_fetch r Fulfilled (k a s))) eqn:Hall; [| exact I1].
    apply on_all_fetched_inv; [exact I1 | apply all_fulfilled_spec, Hall | exact Hnf].
  - apply rejected_inv; assumption.
Qed.

Lemma image_settles_inv (k : kind) (i : nat) (r : image_reply) (s : state) :
  reachable_inv s -> reachable_inv (image_settles k i r s).
Proof.
  intros I. unfold image_settles.
  destruct (tasks s) as [[pts pgts] |] eqn:Et; [| exact I].
  assert (Hall : forall r, fetch s r = Fulfilled).
  { apply (inv_started s I). unfold started. rewrite Et. reflexivity. }
  assert (Hno : ~ exists r, rejected (fetch s r)).
  { intros [r0 [e Hr]]. rewrite Hall in Hr. discriminate Hr. }
  destruct (inv_trace s I) as (rest & E & F).
  destruct k.
  - destruct (pts !! i) as [[rec | | e] |] eqn:Ei; try exact I.
    destruct (resume_record_spec KPost rec r (effects s)) as (extra & Hh & HF & Hfst).
    destruct (resume_record KPost rec r (effects s)) as [t h]. cbn [fst snd] in Hh, Hfst.
    subst h.
    set (p := match t with Crashed e => Failed e | _ => joined (<[i := t]> pts) end).
    destruct (settle_result_others p (set_tasks (<[i := t]> pts, pgts) (effects s ++ extra) s))
      as (Hf & Ht & He & _ & _).
    pose proof (result_settle_result p
                  (set_tasks (<[i := t]> pts, pgts) (effects s ++ extra) s)) as Hres.
    cbn [fetch tasks result effects set_tasks] in Hf, Ht, He, Hres.
    constructor; unfold started; rewrite ?Hf, ?Ht, ?He, ?Hres.
    + exists (rest ++ extra). split; [rewrite E, app_assoc; reflexivity |].
      apply Forall_app. split; [| exact HF].
      eapply Forall_impl; [exact F |]. intros x. apply step_effect_live.
    + intros _. exact Hall.
    + intros Hrej. contradiction.
    + intros _. right. exact Hall.
    + destruct (result s) as [| | e1] eqn:Eres; cbn [is_pending].
      * intros Hp. exists (<[i := t]> pts), pgts. split; [reflexivity |].
        subst p. destruct Hfst as [-> | [e ->]]; [| discriminate Hp].
        unfold joined in Hp.
        destruct (forallb is_done (<[i := Done]> pts)); [reflexivity | discriminate Hp].
      * intros _. exfalso.
        destruct (inv_fulfilled s I Eres) as (pts0 & pgts0 & Ht0 & Hd).
        rewrite Et in Ht0. injection Ht0 as <- <-.
        exact (forallb_is_done_lookup pts i rec Hd Ei).
      * discriminate.
  - destruct (pgts !! i) as [[rec | | e] |] eqn:Ei; try exact I.
    destruct (resume_record_spec KPage rec r (effects s)) as (extra & Hh & HF & _).
    destruct (resume_record KPage rec r (effects s)) as [t h]. cbn [snd] in Hh. subst h.
    constructor; unfold started; cbn [fetch tasks result effects set_tasks].
    + exists (rest ++ extra). split; [rewrite E, app_assoc; reflexivity |].
      apply Forall_app. split; [| exact HF].
      eapply Forall_impl; [exact F |]. intros x. apply step_effect_live.
    + intros _. exact Hall.
    + intros Hrej. contradiction.
    + intros _. right. exact Hall.
    + intros Hfu. destruct (inv_fulfilled s I Hfu) as (pts0 & pgts0 & Ht0 & Hd).
      rewrite Et in Ht0. injection Ht0 as <- <-.
      exists pts, (<[i := t]> pgts). auto.
Qed.

Lemma set_posts_quiet : quiet_callback set_posts.
Proof.
  intros a s. repeat split. exists [].
  split; [symmetry; apply app_nil_r | constructor].
Qed.

Lemma set_pages_quiet : quiet_callback set_pages.
Proof.
  intros a s. repeat split. exists [].
  split; [symmetry; apply app_nil_r | constructor].
Qed.

Lemma forEach_count_quiet (mk : Content -> HostNode) :
  (forall c, node_type (mk c) = TTag \/ node_type (mk c) = TAuthor) ->
  quiet_callback (fun l s => set_effects (forEach_count mk l (effects s)) s).
Proof.
  intros Hmk l s. repeat split. cbn [effects set_effects].
  apply forEach_count_effects, Hmk.
Qed.

Lemma on_settings_quiet :
  quiet_callback (fun setting s => set_effects (on_settings setting (effects s)) s).
Proof.
  intros setting s. repeat split. cbn [effects set_effects]. unfold on_settings.
  eexists [_]. split; [reflexivity |].
  constructor; [| constructor]. cbn. unfold get.
  rewrite lookup_insert_eq. reflexivity.
Qed.

Lemma step_inv (ev : event) (s : state) : reachable_inv s -> reachable_inv (step ev s).
Proof.
  intros I. destruct ev as [o | o | o | o | o | k i r]; cbn [step].
  - apply browse_settles_inv; [apply set_posts_quiet | exact I].
  - apply browse_settles_inv; [apply set_pages_quiet | exact I].
  - apply browse_settles_inv; [| exact I].
    apply forEach_count_quiet. intros c. left. reflexivity.
  - apply browse_settles_inv; [| exact I].
    apply forEach_count_quiet. intros c. right. reflexivity.
  - apply browse_settles_inv; [apply on_settings_quiet | exact I].
  - apply image_settles_inv, I.
Qed.

Lemma run_inv (evs : list event) (s : state) : reachable_inv s -> reachable_inv (run evs s).
Proof.
  revert s. induction evs as [| ev rest IH]; intros s I; cbn [run]; [exact I |].
  apply IH, step_inv, I.
Qed.

Lemma created_app (h1 h2 : trace) : created (h1 ++ h2) = created h1 ++ created h2.
Proof. unfold created. apply omap_app. Qed.

Lemma created_In (h : trace) (n : HostNode) : In n (created h) <-> In (CreateNode n) h.
Proof.
  unfold created. rewrite <- !list_elem_of_In, list_elem_of_omap. split.
  - intros (e & He & Hn). destruct e; try discriminate Hn. injection Hn as ->. exact He.
  - intros He. exists (CreateNode n). split; [exact He | reflexivity].
Qed.

(** ** Fetch failures *)

Lemma reachable (evs : list event) : reachable_inv (run evs init).
Proof. apply run_inv, init_inv. Qed.

Lemma browsed_trace (rest : trace) (live : bool) :
  Forall (step_effect live) rest -> browsed (map Browse resources ++ rest) = resources.
Proof.
  intros F. unfold browsed. rewrite omap_app.
  replace (omap _ rest) with (@nil resource); [reflexivity |].
  induction F as [| e rest He _ IH]; [reflexivity |].
  cbn [omap]. destruct e; [destruct He | exact IH ..].
Qed.

(** C4, as amended: in every run in which a browse call has rejected, the
    returned promise is rejected, the per-record processing of posts and
    pages has not started, and the only calls made besides the five browse
    calls are [createNode] calls for tag, author and settings nodes. *)
Theorem fetch_failure_commits_no_post_or_page (evs : list event) :
  let s := run evs init in
  (exists r, rejected (fetch s r)) ->
  rejected (result s)
  /\ tasks s = None
  /\ forall e, In e (effects s) ->
       match e with
       | Browse _ => True
       | CreateNode n =>
           node_type n = TTag \/ node_type n = TAuthor \/ node_type n = TSettings
       | _ => False
       end.
Proof.
  intros s Hrej. pose proof (reachable evs) as I. fold s in I.
  destruct (inv_rejected s I Hrej) as (r & e & Hr & Hres).
  assert (Hnone : tasks s = None).
  { destruct (tasks s) eqn:Et; [| reflexivity].
    pose proof (inv_started s I) as Hs. unfold started in Hs. rewrite Et in Hs.
    rewrite (Hs eq_refl r) in Hr. discriminate Hr. }
  split; [exists e; exact Hres |]. split; [exact Hnone |].
  destruct (inv_trace s I) as (rest & E & F).
  unfold started in F. rewrite Hnone in F.
  intros x Hx. rewrite E in Hx. apply in_app_or in Hx as [Hx | Hx].
  - apply in_map_iff in Hx as (r0 & <- & _). constructor.
  - rewrite Forall_forall in F. apply list_elem_of_In in Hx. specialize (F x Hx).
    destruct x as [r0 | n | u p | fid nm v | er]; cbn in F; try discriminate F; auto.
    destruct (node_type n); auto; discriminate F.
Qed.

Lemma fetch_failure_commits_no_post_or_page_witness :
  (exists r, rejected (fetch (run [TagsSettle (Resolved [sample_tag]);
                                   PostsSettle (Rejected (Thrown "503"))] init) r))
  /\ rejected (result (run [TagsSettle (Resolved [sample_tag]);
                            PostsSettle (Rejected (Thrown "503"))] init))
  /\ tasks (run [TagsSettle (Resolved [sample_tag]);
                 PostsSettle (Rejected (Thrown "503"))] init) = None
  /\ forall e, In e (effects (run [TagsSettle (Resolved [sample_tag]);
                                   PostsSettle (Rejected (Thrown "503"))] init)) ->
       match e with
       | Browse _ => True
       | CreateNode n =>
           node_type n = TTag \/ node_type n = TAuthor \/ node_type n = TSettings
       | _ => False
       end.
Proof.
  assert (H : exists r, rejected (fetch (run [TagsSettle (Resolved [sample_tag]);
                                   PostsSettle (Rejected (Thrown "503"))] init) r)).
  { exists Posts, (Thrown "503"). reflexivity. }
  split; [exact H |].
  exact (fetch_failure_commits_no_post_or_page
           [TagsSettle (Resolved [sample_tag]); PostsSettle (Rejected (Thrown "503"))] H).
Defined.

(** C4 as stated fails: the tags resolve, then the posts reject.  The run is
    rejected, and the tag's node has been created. *)
Lemma tag_node_survives_fetch_failure :
  fetch (run [TagsSettle (Resolved [sample_tag]);
              PostsSettle (Rejected (Thrown "503"))] init) Posts = Failed (Thrown "503")
  /\ result (run [TagsSettle (Resolved [sample_tag]);
                  PostsSettle (Rejected (Thrown "503"))] init) = Failed (Thrown "503")
  /\ map node_type (created (effects (run [TagsSettle (Resolved [sample_tag]);
                                           PostsSettle (Rejected (Thrown "503"))] init)))
     = [TTag]
  /\ ~ no_partial_commit.
Proof.
  split; [reflexivity |]. split; [reflexivity |]. split; [reflexivity |].
  intros Hclaim.
  destruct (Hclaim [TagsSettle (Resolved [sample_tag]);
                    PostsSettle (Rejected (Thrown "503"))]) as [_ Hnil].
  - exists Posts, (Thrown "503"). reflexivity.
  - apply (f_equal (@length HostNode)) in Hnil. vm_compute in Hnil. discriminate Hnil.
Qed.

Lemma browse_rejects {A : Type} (r : resource) (e : error)
    (k : A -> state -> state) (s : state) :
  fetch s r = Pending -> result s = Pending ->
  result (browse_settles r (Rejected e) k s) = Failed e
  /\ fetch (browse_settles r (Rejected e) k s) r = Failed e.
Proof.
  intros Hr Hres. unfold browse_settles. rewrite Hr.
  rewrite result_settle_result. cbn [result set_fetch]. rewrite Hres.
  split; [reflexivity |].
  destruct (settle_result_others (Failed e) (set_fetch r (Failed e) s)) as [-> _].
  cbn [fetch set_fetch]. destruct (decide (r = r)); [reflexivity | contradiction].
Qed.

Lemma first_rejection_settles (r : resource) (e : error) (s : state) :
  fetch s r = Pending -> result s = Pending ->
  result (step (rejection r e) s) = Failed e /\ fetch (step (rejection r e) s) r = Failed e.
Proof.
  intros Hr Hres. destruct r; cbn [rejection step]; apply browse_rejects; assumption.
Qed.

(** C5: in every run in which a browse call has rejected, the returned
    promise is rejected with the very error one of the rejected browse calls
    carried; a browse call that rejects while the promise is pending settles
    it with its error at once; and each of the five browse calls is made
    once, whatever happens. *)
Theorem fetch_failure_propagates (evs : list event) :
  let s := run evs init in
  ((exists r, rejected (fetch s r)) ->
   exists r e, fetch s r = Failed e /\ result s = Failed e)
  /\ (forall r e, fetch s r = Pending -> result s = Pending ->
      result (step (rejection r e) s) = Failed e)
  /\ browsed (effects s) = resources.
Proof.
  intros s. pose proof (reachable evs) as I. fold s in I.
  split; [exact (inv_rejected s I) |]. split.
  - intros r e Hr Hres. apply (first_rejection_settles r e s Hr Hres).
  - destruct (inv_trace s I) as (rest & -> & F). exact (browsed_trace rest _ F).
Qed.

Lemma fetch_failure_propagates_witness :
  ((exists r, rejected (fetch (run [TagsSettle (Resolved [sample_tag]);
                                    PagesSettle (Rejected (Thrown "503"))] init) r))
   /\ exists r e,
        fetch (run [TagsSettle (Resolved [sample_tag]);
                    PagesSettle (Rejected (Thrown "503"))] init) r = Failed e
        /\ result (run [TagsSettle (Resolved [sample_tag]);
                        PagesSettle (Rejected (Thrown "503"))] init) = Failed e)
  /\ (fetch (run [TagsSettle (Resolved [sample_tag])] init) Authors = Pending
      /\ result (run [TagsSettle (Resolved [sample_tag])] init) = Pending
      /\ result (step (rejection Authors (Thrown "timeout"))
                   (run [TagsSettle (Resolved [sample_tag])] init))
         = Failed (Thrown "timeout")).
Proof.
  split.
  - assert (H : exists r, rejected (fetch (run [TagsSettle (Resolved [sample_tag]);
                                     PagesSettle (Rejected (Thrown "503"))] init) r)).
    { exists Pages, (Thrown "503"). reflexivity. }
    split; [exact H |].
    exact (proj1 (fetch_failure_propagates
                    [TagsSettle (Resolved [sample_tag]);
                     PagesSettle (Rejected (Thrown "503"))]) H).
  - split; [reflexivity |]. split; [reflexivity |].
    apply (proj1 (proj2 (fetch_failure_propagates [TagsSettle (Resolved [sample_tag])])));
      reflexivity.
Defined.

(** ** The settings node *)

Lemma on_all_fetched_effects (s : state) :
  exists more, effects (on_all_fetched s) = effects s ++ more.
Proof.
  unfold on_all_fetched.
  destruct (posts s) as [ps |], (pages s) as [pgs |].
  1: { destruct (map_start_effects KPost ps (effects s)) as (e1 & H1 & _).
       destruct (map_start KPost ps (effects s)) as [pts h1]. cbn [snd] in H1. subst h1.
       destruct (map_start_effects KPage pgs (effects s ++ e1)) as (e2 & H2 & _).
       destruct (map_start KPage pgs (effects s ++ e1)) as [pgts h2]. cbn [snd] in H2. subst h2.
       destruct (settle_result_others (joined pts)
                   (set_tasks (pts, pgts) ((effects s ++ e1) ++ e2) s))
         as (_ & _ & -> & _).
       exists (e1 ++ e2). cbn [effects set_tasks]. symmetry. apply app_assoc. }
  all: destruct (settle_result_others
                   (Failed (TypeError "Cannot read property 'map' of undefined")) s)
         as (_ & _ & -> & _);
       exists []; symmetry; apply app_nil_r.
Qed.

Lemma on_settings_node (setting : obj) (h : trace) :
  on_settings setting h = h ++ [CreateNode (SettingsNode (plain (<["id" := VNum 1]> setting)))]
  /\ node_id (SettingsNode (plain (<["id" := VNum 1]> setting))) = VNum 1.
Proof.
  split; [reflexivity |]. cbn. unfold get. rewrite lookup_insert_eq. reflexivity.
Qed.

(** C7: a settings record without an identifier of its own gets [id = 1]
    before its node is created: when the settings call resolves, the next
    call on the host is [createNode] with a settings node whose identifier
    is [1] and whose fields are the record's, plus that [id]. *)
Theorem settings_synthetic_id (setting : obj) (s : state) :
  setting !! "id" = None ->
  fetch s Settings = Pending ->
  exists (n : HostNode) (more : trace),
    effects (step (SettingsSettle (Resolved setting)) s)
      = effects s ++ [CreateNode n] ++ more
    /\ node_type n = TSettings
    /\ node_id n = VNum 1
    /\ node_fields n !! "id" = Some (VNum 1)
    /\ delete "id" (node_fields n) = setting.
Proof.
  intros Hid Hp.
  exists (SettingsNode (plain (<["id" := VNum 1]> setting))).
  assert (Hnode : node_type (SettingsNode (plain (<["id" := VNum 1]> setting))) = TSettings
          /\ node_id (SettingsNode (plain (<["id" := VNum 1]> setting))) = VNum 1
          /\ node_fields (SettingsNode (plain (<["id" := VNum 1]> setting))) !! "id"
             = Some (VNum 1)
          /\ delete "id" (node_fields (SettingsNode (plain (<["id" := VNum 1]> setting))))
             = setting).
  { split; [reflexivity |]. split; [apply on_settings_node; exact [] |].
    cbn [SettingsNode Mapper node_fields plain fields].
    split; [apply lookup_insert_eq |].
    rewrite delete_insert_eq. apply delete_id, Hid. }
  cbn [step]. unfold browse_settles. rewrite Hp.
  match goal with
  | |- context [if all_fulfilled ?s1 then _ else _] =>
      destruct (all_fulfilled s1);
      [destruct (on_all_fetched_effects s1) as (more & Hmore) |]
  end.
  - exists more. split; [| exact Hnode].
    rewrite Hmore. cbn [effects set_fetch set_effects]. unfold on_settings.
    rewrite <- app_assoc. reflexivity.
  - exists []. split; [| exact Hnode].
    cbn [effects set_fetch set_effects]. unfold on_settings. reflexivity.
Qed.

Lemma settings_synthetic_id_witness :
  (∅ : obj) !! "id" = None
  /\ fetch init Settings = Pending
  /\ exists (n : HostNode) (more : trace),
       effects (step (SettingsSettle (Resolved ∅)) init)
         = effects init ++ [CreateNode n] ++ more
       /\ node_type n = TSettings
       /\ node_id n = VNum 1
       /\ node_fields n !! "id" = Some (VNum 1)
       /\ delete "id" (node_fields n) = ∅.
Proof.
  split; [reflexivity |]. split; [reflexivity |].
  apply (settings_synthetic_id ∅ init); reflexivity.
Defined.

(** C10: whatever the settings call resolved with, also a record that
    already has an [id], the record's [id] is overwritten with [1] before
    the node is made; in every run, every settings node handed to
    [createNode] has the identifier [1]. *)
Theorem settings_id_always_one :
  (forall (setting : obj) (h : trace),
      exists n : HostNode,
        on_settings setting h = h ++ [CreateNode n]
        /\ node_type n = TSettings
        /\ node_id n = VNum 1
        /\ node_fields n !! "id" = Some (VNum 1))
  /\ (forall (evs : list event) (n : HostNode),
         In n (created (effects (run evs init))) ->
         node_type n = TSettings -> node_id n = VNum 1).
Proof.
  split.
  - intros setting h. exists (SettingsNode (plain (<["id" := VNum 1]> setting))).
    destruct (on_settings_node setting h) as [Heq Hid].
    repeat split; [exact Hid | apply lookup_insert_eq].
  - intros evs n Hin Hty.
    destruct (inv_trace _ (reachable evs)) as (rest & E & F).
    apply created_In in Hin. rewrite E in Hin. apply in_app_or in Hin as [Hin | Hin].
    + apply in_map_iff in Hin as (r & Hr & _). discriminate Hr.
    + rewrite Forall_forall in F. apply list_elem_of_In in Hin.
      specialize (F _ Hin). cbn in F. rewrite Hty in F. exact F.
Qed.

Lemma settings_id_always_one_witness :
  In (SettingsNode (plain (<["id" := VNum 1]> odd_settings)))
     (created (effects (run [SettingsSettle (Resolved odd_settings)] init)))
  /\ node_type (SettingsNode (plain (<["id" := VNum 1]> odd_settings))) = TSettings
  /\ odd_settings !! "id" = Some (VStr "cms-7")
  /\ node_id (SettingsNode (plain (<["id" := VNum 1]> odd_settings))) = VNum 1.
Proof.
  assert (Hin : In (SettingsNode (plain (<["id" := VNum 1]> odd_settings)))
                   (created (effects (run [SettingsSettle (Resolved odd_settings)] init)))).
  { left. reflexivity. }
  split; [exact Hin |]. split; [reflexivity |]. split; [reflexivity |].
  exact (proj2 settings_id_always_one
           [SettingsSettle (Resolved odd_settings)] _ Hin eq_refl).
Defined.

(** ** Posts, pages and the returned promise *)

(** When the download fails, the callback of the record throws after the
    warning and never reaches [createNode]. *)
Lemma resume_record_download_fails (k : kind) (rec : Content) (e : error) (h : trace) :
  resume_record k rec (DownloadFails e) h =
  (Crashed (TypeError "Cannot read property 'id' of undefined"),
   h ++ [CreateRemoteFileNode (get (fields rec) "feature_image") (get (fields rec) "id");
         Warn e]).
Proof. rewrite resume_record_eq. reflexivity. Qed.

(** C1, the code at the failing input: one post with a feature image, all
    five browse calls resolve, the download of the image fails.  The
    side-loader logs its warning and returns [undefined]; the post's
    callback then throws a [TypeError], the post's node is never created
    (the settings node is the only node), and the returned promise is
    rejected with that [TypeError]. *)
Theorem post_lost_when_download_fails :
  let s := run (fetched_one_image_post ++
                [ImageSettle KPost 0 (DownloadFails (Thrown "404"))]) init in
  result s = Failed (TypeError "Cannot read property 'id' of undefined")
  /\ tasks s = Some ([Crashed (TypeError "Cannot read property 'id' of undefined")], [])
  /\ In (Warn (Thrown "404")) (effects s)
  /\ map node_type (created (effects s)) = [TSettings].
Proof.
  cbv zeta. split; [reflexivity |]. split; [reflexivity |].
  split; [| reflexivity].
  vm_compute. do 7 right. left. reflexivity.
Qed.

(** What does hold of the returned promise: it is fulfilled only when all
    five browse calls have resolved and every post's callback has finished. *)
Lemma fulfilled_after_posts (evs : list event) :
  result (run evs init) = Fulfilled ->
  (forall r, fetch (run evs init) r = Fulfilled)
  /\ exists pts pgts, tasks (run evs init) = Some (pts, pgts)
                      /\ forallb is_done pts = true.
Proof.
  intros Hf. pose proof (reachable evs) as I.
  destruct (inv_fulfilled _ I Hf) as (pts & pgts & Ht & Hd).
  split; [| exists pts, pgts; auto].
  apply (inv_started _ I). unfold started. rewrite Ht. reflexivity.
Qed.

(** C2, the code at the failing input: no post, one page with a feature
    image, all five browse calls resolve.  The returned promise is fulfilled
    while the page's callback still waits for the side-loader and no page
    node exists; the page's node is created afterwards, when the host
    answers. *)
Theorem fulfilled_before_page_node :
  let s := run fetched_one_image_page init in
  result s = Fulfilled
  /\ tasks s = Some ([], [Waiting image_page])
  /\ map node_type (created (effects s)) = [TSettings]
  /\ let s' := step (ImageSettle KPage 0 (Downloaded sample_file None None)) s in
     tasks s' = Some ([], [Done])
     /\ map node_type (created (effects s')) = [TSettings; TPage].
Proof.
  cbv zeta. repeat split; reflexivity.
Qed.

(** ** The schema placeholder manager *)

(** The host refuses a node that still carries an owner: without the
    [delete] of line 124, a second activation would throw. *)
Lemma host_createNode_refuses_owner (n : FakeNode) (st : gset string) (log : list call) :
  exists e, host_createNode (stamp n) st log = inl e.
Proof. eexists. reflexivity. Qed.

Lemma forEach_create_eq (nodes : list FakeNode) (st : gset string) (log : list call) :
  forEach_create nodes st log =
  inr (map stamp nodes, fake_ids nodes ∪ st, log ++ map create_call nodes).
Proof.
  revert st log. induction nodes as [| node rest IH]; intros st log; cbn [forEach_create].
  - unfold fake_ids. cbn [map list_to_set]. rewrite app_nil_r, union_empty_l_L. reflexivity.
  - unfold host_createNode. cbn [owner fake_id]. rewrite IH.
    cbn [map]. rewrite <- app_assoc. do 3 f_equal.
    unfold fake_ids. cbn [map list_to_set].
    rewrite (assoc_L (∪)), (comm_L (∪) (list_to_set (map fake_id rest))). reflexivity.
Qed.

Lemma forEach_delete_eq (nodes : list FakeNode) (st : gset string) (log : list call) :
  forEach_delete nodes st log = (st ∖ fake_ids nodes, log ++ map delete_call nodes).
Proof.
  revert st log. induction nodes as [| node rest IH]; intros st log; cbn [forEach_delete].
  - unfold fake_ids. cbn [map list_to_set]. rewrite app_nil_r, difference_empty_L. reflexivity.
  - unfold host_deleteNode. rewrite IH. cbn [map]. rewrite <- app_assoc.
    f_equal. unfold fake_ids. cbn [map list_to_set].
    apply difference_difference_l_L.
Qed.

Lemma createTemporaryFakeNodes_eq (w : world) :
  createTemporaryFakeNodes w =
  inr {| fakeNodes := map stamp (fakeNodes w);
         store := fake_ids (fakeNodes w) ∪ store w;
         listeners := listeners w ++ [next_closure w];
         next_closure := S (next_closure w);
         calls := (calls w ++ map create_call (fakeNodes w)) ++ [EmitterOn (next_closure w)] |}.
Proof. unfold createTemporaryFakeNodes. rewrite forEach_create_eq. reflexivity. Qed.

(** C8: whatever state the fake nodes, the host and the emitter are in,
    two activations in a row both return without throwing.  The first one
    leaves every fake node with an owner marker; all the same, every
    [createNode] call of either activation receives a node without owner,
    and the second activation hands each fake node to [createNode] again. *)
Theorem activation_clears_stale_owner (w : world) :
  exists w1 w2 : world,
    createTemporaryFakeNodes w = inr w1
    /\ (forall n, In n (fakeNodes w1) -> owner n = Some plugin_name)
    /\ createTemporaryFakeNodes w1 = inr w2
    /\ exists new1 new2 : list call,
         calls w1 = calls w ++ new1
         /\ calls w2 = calls w1 ++ new2
         /\ (forall id o, In (HostCreateNode id o) (new1 ++ new2) -> o = None)
         /\ (forall n, In n (fakeNodes w) -> In (HostCreateNode (fake_id n) None) new2).
Proof.
  eexists. eexists. split; [apply createTemporaryFakeNodes_eq |].
  split.
  { cbn [fakeNodes]. intros n Hn. apply in_map_iff in Hn as (n0 & <- & _). reflexivity. }
  split; [apply createTemporaryFakeNodes_eq |].
  cbn [fakeNodes calls next_closure].
  exists (map create_call (fakeNodes w) ++ [EmitterOn (next_closure w)]).
  exists (map create_call (map stamp (fakeNodes w)) ++ [EmitterOn (S (next_closure w))]).
  split; [symmetry; apply app_assoc |]. split; [symmetry; apply app_assoc |]. split.
  - intros id o Hin.
    repeat (apply in_app_or in Hin as [Hin | Hin]).
    + apply in_map_iff in Hin as (n & Hn & _). injection Hn as _ <-. reflexivity.
    + destruct Hin as [Hin | []]. discriminate Hin.
    + apply in_map_iff in Hin as (n & Hn & _). injection Hn as _ <-. reflexivity.
    + destruct Hin as [Hin | []]. discriminate Hin.
  - intros n Hn. apply in_or_app. left.
    apply in_map_iff. exists (stamp n). split; [reflexivity |].
    apply in_map, Hn.
Qed.

(** The two hooks in build order: [sourceNodes] returns the promise of a
    run that is just starting, and [onPreExtractQueries] returns as well. *)
Lemma hooks_return (w : world) :
  exists w1 w2 : world,
    sourceNodes w = inr (w1, init) /\ onPreExtractQueries w1 = inr w2.
Proof.
  unfold sourceNodes, onPreExtractQueries.
  rewrite createTemporaryFakeNodes_eq. eexists. eexists.
  split; [reflexivity | apply createTemporaryFakeNodes_eq].
Qed.

Lemma onSchemaUpdate_eq (c : nat) (w : world) :
  onSchemaUpdate c w =
  {| fakeNodes := fakeNodes w;
     store := store w ∖ fake_ids (fakeNodes w);
     listeners := emitter_off c (listeners w);
     next_closure := next_closure w;
     calls := (calls w ++ map delete_call (fakeNodes w)) ++ [EmitterOff c] |}.
Proof. unfold onSchemaUpdate. rewrite forEach_delete_eq. reflexivity. Qed.

Lemma call_handlers_spec (snapshot : list nat) (w : world) :
  fakeNodes (call_handlers snapshot w) = fakeNodes w
  /\ listeners (call_handlers snapshot w)
     = fold_left (fun ls c => emitter_off c ls) snapshot (listeners w)
  /\ (snapshot <> [] ->
      store (call_handlers snapshot w) = store w ∖ fake_ids (fakeNodes w))
  /\ exists more : list call,
       calls (call_handlers snapshot w) = calls w ++ more
       /\ (snapshot <> [] ->
           forall n, In n (fakeNodes w) -> In (delete_call n) more)
       /\ (forall c, In c snapshot -> In (EmitterOff c) more).
Proof.
  revert w. induction snapshot as [| c rest IH]; intros w; cbn [call_handlers fold_left].
  - repeat split; [contradiction |]. exists [].
    split; [symmetry; apply app_nil_r |]. split; [contradiction | intros c []].
  - destruct (IH (onSchemaUpdate c w)) as (Hf & Hl & Hs & more & Hc & _ & Hoff).
    rewrite onSchemaUpdate_eq in Hf, Hl, Hs, Hc.
    cbn [fakeNodes listeners store calls] in Hf, Hl, Hs, Hc.
    rewrite onSchemaUpdate_eq.
    split; [exact Hf |]. split; [exact Hl |]. split.
    + intros _. destruct rest as [| c' rest'].
      * reflexivity.
      * rewrite Hs by discriminate.
        rewrite difference_difference_l_L, union_idemp_L. reflexivity.
    + exists (map delete_call (fakeNodes w) ++ [EmitterOff c] ++ more).
      split; [rewrite Hc, <- !app_assoc; reflexivity |]. split.
      * intros _ n Hn. apply in_or_app. left. apply in_map, Hn.
      * intros c0 [<- | Hc0]; apply in_or_app; right.
        -- left. reflexivity.
        -- right. apply Hoff, Hc0.
Qed.

Lemma emitter_off_perm (c : nat) (ls : list nat) :
  In c ls -> Permutation ls (c :: emitter_off c ls).
Proof.
  induction ls as [| c' rest IH]; intros Hin; [destruct Hin |].
  cbn [emitter_off]. destruct (decide (c' = c)) as [-> | Hne]; [reflexivity |].
  destruct Hin as [-> | Hin]; [contradiction |].
  rewrite (IH Hin) at 1. apply perm_swap.
Qed.

Lemma emitter_off_all (snapshot cur : list nat) :
  Permutation cur snapshot ->
  fold_left (fun ls c => emitter_off c ls) snapshot cur = [].
Proof.
  revert cur. induction snapshot as [| c rest IH]; intros cur Hp; cbn [fold_left].
  - apply Permutation_nil. symmetry. exact Hp.
  - apply IH. apply Permutation_cons_inv with (a := c).
    rewrite <- emitter_off_perm; [exact Hp |].
    apply (Permutation_in c (Permutation_sym Hp)). left. reflexivity.
Qed.

(** C9: after an activation, the first [SET_SCHEMA] calls [deleteNode] on
    every fake node and leaves none of them in the host's store; the
    handler of that activation takes itself off the emitter, and no handler
    is left registered; a second [SET_SCHEMA] then changes nothing and makes
    no call. *)
Theorem schema_signal_retracts_once (w w1 : world) :
  createTemporaryFakeNodes w = inr w1 ->
  let w2 := emit_SET_SCHEMA w1 in
  (forall n, In n (fakeNodes w2) -> fake_id n ∉ store w2)
  /\ (forall n, In n (fakeNodes w1) -> In (HostDeleteNode (fake_id n)) (calls w2))
  /\ In (EmitterOff (next_closure w)) (calls w2)
  /\ listeners w2 = []
  /\ emit_SET_SCHEMA w2 = w2.
Proof.
  intros Hact w2.
  rewrite createTemporaryFakeNodes_eq in Hact. injection Hact as Hw1.
  assert (Hlast : In (next_closure w) (listeners w1)).
  { rewrite <- Hw1. cbn [listeners]. apply in_or_app. right. left. reflexivity. }
  assert (Hne : listeners w1 <> []).
  { intros H. rewrite H in Hlast. destruct Hlast. }
  destruct (call_handlers_spec (listeners w1) w1) as (Hf & Hl & Hs & more & Hc & Hd & Hoff).
  fold (emit_SET_SCHEMA w1) in Hf, Hl, Hs, Hc. fold w2 in Hf, Hl, Hs, Hc.
  assert (Hnil : listeners w2 = []).
  { rewrite Hl. apply emitter_off_all. reflexivity. }
  split.
  { intros n Hn. rewrite Hs by exact Hne. rewrite Hf in Hn.
    intros Hin. apply elem_of_difference in Hin as [_ Hnot]. apply Hnot.
    unfold fake_ids. apply elem_of_list_to_set, list_elem_of_In, in_map, Hn. }
  split.
  { intros n Hn. rewrite Hc. apply in_or_app. right. apply (Hd Hne n Hn). }
  split.
  { rewrite Hc. apply in_or_app. right. apply Hoff, Hlast. }
  split; [exact Hnil |].
  unfold emit_SET_SCHEMA at 1. rewrite Hnil. reflexivity.
Qed.

Lemma schema_signal_retracts_once_witness :
  createTemporaryFakeNodes sample_world = inr sample_world_active
  /\ (forall n, In n (fakeNodes (emit_SET_SCHEMA sample_world_active)) ->
      fake_id n ∉ store (emit_SET_SCHEMA sample_world_active))
  /\ (forall n, In n (fakeNodes sample_world_active) ->
      In (HostDeleteNode (fake_id n)) (calls (emit_SET_SCHEMA sample_world_active)))
  /\ In (EmitterOff (next_closure sample_world)) (calls (emit_SET_SCHEMA sample_world_active))
  /\ listeners (emit_SET_SCHEMA sample_world_active) = []
  /\ emit_SET_SCHEMA (emit_SET_SCHEMA sample_world_active)
     = emit_SET_SCHEMA sample_world_active.
Proof.
  assert (H : createTemporaryFakeNodes sample_world = inr sample_world_active).
  { vm_compute. reflexivity. }
  split; [exact H |].
  exact (schema_signal_retracts_once sample_world sample_world_active H).
Defined.

(** ** Further properties of the side-loader *)

Lemma warnings_app (h1 h2 : trace) : warnings (h1 ++ h2) = warnings h1 ++ warnings h2.
Proof. unfold warnings. apply omap_app. Qed.

Lemma sideload_calls_quiet (fi id : value) (r : image_reply) :
  warnings (sideload_calls fi id r) = [] /\ created (sideload_calls fi id r) = [].
Proof. destruct r as [e | f [e1|] [e2|]]; split; reflexivity. Qed.

(** X1: whatever the host answers, the side-loader returns without
    throwing.  Its first call is [createRemoteFileNode] with the feature
    image as [url] and the record's identifier as [parentNodeId]; it never
    calls [createNode] itself; it logs no warning when all three steps went
    through and exactly one, carrying the error, when a step failed. *)
Theorem sideloader_never_throws (fi id : value) (r : image_reply) (h : trace) :
  exists (rest : trace) (res : option FileNode),
    downloadImageAndCreateFileNode fi id r (fresh h)
      = ({| host := h ++ CreateRemoteFileNode fi id :: rest; fileNode := res |}, inr res)
    /\ created rest = []
    /\ warnings rest = match failure_of r with Some e => [e] | None => [] end.
Proof.
  rewrite downloadImageAndCreateFileNode_eq.
  exists (tl (sideload_calls fi id r)
          ++ match failure_of r with Some e => [Warn e] | None => [] end).
  exists (sideload_result fi id r).
  split; [reflexivity |].
  rewrite created_app, warnings_app.
  destruct r as [e | f [e1|] [e2|]]; split; reflexivity.
Qed.

(** X2: when the side-loader returns a node, it is the node the download
    resolved with: same identifier, and every field other than
    [originalPath] and [refId] as the host delivered it.  [refId] is only
    written after [originalPath] went through: a returned node whose
    [originalPath] annotation was refused has its [refId] untouched too. *)
Theorem sideloader_result_frame (fi id : value) (r : image_reply) (h : trace)
    (img : FileNode) :
  snd (downloadImageAndCreateFileNode fi id r (fresh h)) = inr (Some img) ->
  exists (f : FileNode) (r1 r2 : option error),
    r = Downloaded f r1 r2
    /\ file_id img = file_id f
    /\ (forall key, key <> "originalPath" -> key <> "refId" ->
        file_fields img !! key = file_fields f !! key)
    /\ (r1 <> None -> file_fields img = file_fields f).
Proof.
  rewrite downloadImageAndCreateFileNode_eq. cbn [snd]. intros Hres.
  destruct r as [e | f [e1|] [e2|]]; cbn [sideload_result] in Hres;
    [discriminate Hres | | | |]; injection Hres as <-;
    exists f; eexists; eexists; (split; [reflexivity |]);
    (split; [reflexivity |]); split; try (intros _; reflexivity);
    try (intros Hn; contradiction);
    intros key H1 H2; cbn [annotate file_fields];
    rewrite ?lookup_insert_ne by congruence; reflexivity.
Qed.

Lemma sideloader_result_frame_witness :
  snd (downloadImageAndCreateFileNode sample_url (VStr "p1")
         (Downloaded sample_file None None) (fresh []))
    = inr (Some (annotate (annotate sample_file "originalPath" sample_url)
                   "refId" (VStr "p1")))
  /\ exists (f : FileNode) (r1 r2 : option error),
       Downloaded sample_file None None = Downloaded f r1 r2
       /\ file_id (annotate (annotate sample_file "originalPath" sample_url)
                     "refId" (VStr "p1")) = file_id f
       /\ (forall key, key <> "originalPath" -> key <> "refId" ->
           file_fields (annotate (annotate sample_file "originalPath" sample_url)
                          "refId" (VStr "p1")) !! key = file_fields f !! key)
       /\ (r1 <> None ->
           file_fields (annotate (annotate sample_file "originalPath" sample_url)
                          "refId" (VStr "p1")) = file_fields f).
Proof.
  split; [reflexivity |].
  apply (sideloader_result_frame sample_url (VStr "p1")
           (Downloaded sample_file None None) []).
  reflexivity.
Defined.

(** ** Further properties of the per-record callbacks *)

(** X3: whenever the download resolved, the record's node is created and
    linked to the downloaded file node, whether or not the annotations went
    through: the callback is fulfilled, [createNode] is its last call and
    the only one, the record handed to the mapper has [localFile___NODE]
    set to the file node's identifier, and a refused annotation costs one
    warning and nothing else. *)
Theorem downloaded_record_gets_node (k : kind) (rec : Content) (f : FileNode)
    (r1 r2 : option error) (h : trace) :
  exists (calls : trace) (img : FileNode),
    resume_record k rec (Downloaded f r1 r2) h =
      (Done,
       h ++ calls ++
       [CreateNode (factory k
          {| fields := <["localFile___NODE" := VStr (file_id f)]> (fields rec);
             image := Some img |})])
    /\ file_id img = file_id f
    /\ created calls = []
    /\ warnings calls = match failure_of (Downloaded f r1 r2) with
                        | Some e => [e]
                        | None => []
                        end.
Proof.
  rewrite resume_record_eq.
  set (fi := get (fields rec) "feature_image"). set (id := get (fields rec) "id").
  exists (sideload_calls fi id (Downloaded f r1 r2) ++
          match failure_of (Downloaded f r1 r2) with Some e => [Warn e] | None => [] end).
  destruct r1 as [e1|], r2 as [e2|]; cbn [sideload_result failure_of];
    eexists; (split; [rewrite <- !app_assoc; reflexivity |]);
    repeat split; reflexivity.
Qed.

Lemma forEach_count_eq (mk : Content -> HostNode) (l : list Tag) (h : trace) :
  forEach_count mk l h = h ++ map (fun tag => CreateNode (mk (counted tag))) l.
Proof.
  revert h. induction l as [| tag rest IH]; intros h; cbn [forEach_count map].
  - symmetry. apply app_nil_r.
  - rewrite IH, <- app_assoc. reflexivity.
Qed.

Lemma on_all_fetched_fetch (s : state) : fetch (on_all_fetched s) = fetch s.
Proof.
  unfold on_all_fetched.
  destruct (posts s) as [ps |], (pages s) as [pgs |].
  1: { destruct (map_start KPost ps (effects s)) as [pts h1].
       destruct (map_start KPage pgs h1) as [pgts h2].
       destruct (settle_result_others (joined pts) (set_tasks (pts, pgts) h2 s)) as [-> _].
       reflexivity. }
  all: destruct (settle_result_others
                   (Failed (TypeError "Cannot read property 'map' of undefined")) s)
         as [-> _]; reflexivity.
Qed.

Lemma browse_resolves {A : Type} (r : resource) (a : A)
    (k : A -> state -> state) (s : state) :
  fetch s r = Pending ->
  exists more,
    effects (browse_settles r (Resolved a) k s) = effects (k a s) ++ more
    /\ fetch (browse_settles r (Resolved a) k s) r = Fulfilled.
Proof.
  intros Hp. unfold browse_settles. rewrite Hp.
  assert (Hf : fetch (set_fetch r Fulfilled (k a s)) r = Fulfilled).
  { cbn [fetch set_fetch]. destruct (decide (r = r)); [reflexivity | contradiction]. }
  destruct (all_fulfilled (set_fetch r Fulfilled (k a s))).
  - destruct (on_all_fetched_effects (set_fetch r Fulfilled (k a s))) as (more & Hm).
    exists more. split; [exact Hm |]. rewrite on_all_fetched_fetch. exact Hf.
  - exists []. split; [symmetry; apply app_nil_r | exact Hf].
Qed.

(** X4: when the tags call resolves, one tag node per tag is created, in the
    order of the response, each from the tag with [postCount] set to its
    [count.posts] (an own [postCount] of the tag is overwritten, its [id] is
    kept); the authors call does the same with author nodes.  This happens
    whatever state the returned promise is in: a run already rejected by
    another browse call still creates these nodes. *)
Theorem tags_and_authors_callbacks (l : list Tag) (s : state) :
  (fetch s Tags = Pending ->
   exists more,
     effects (step (TagsSettle (Resolved l)) s)
       = effects s ++ map (fun tag => CreateNode (TagNode (counted tag))) l ++ more
     /\ fetch (step (TagsSettle (Resolved l)) s) Tags = Fulfilled)
  /\ (fetch s Authors = Pending ->
      exists more,
        effects (step (AuthorsSettle (Resolved l)) s)
          = effects s ++ map (fun tag => CreateNode (AuthorNode (counted tag))) l ++ more
        /\ fetch (step (AuthorsSettle (Resolved l)) s) Authors = Fulfilled)
  /\ (forall tag,
        node_fields (TagNode (counted tag)) !! "postCount" = Some (count_posts tag)
        /\ node_fields (AuthorNode (counted tag)) !! "postCount" = Some (count_posts tag)
        /\ get (fields (counted tag)) "id" = get (tag_fields tag) "id").
Proof.
  split; [| split].
  - intros Hp. cbn [step].
    destruct (browse_resolves Tags l
                (fun tags s => set_effects (forEach_count TagNode tags (effects s)) s)
                s Hp) as (more & He & Hf).
    exists more. split; [| exact Hf].
    rewrite He. cbn [effects set_effects]. rewrite forEach_count_eq, <- app_assoc.
    reflexivity.
  - intros Hp. cbn [step].
    destruct (browse_resolves Authors l
                (fun tags s => set_effects (forEach_count AuthorNode tags (effects s)) s)
                s Hp) as (more & He & Hf).
    exists more. split; [| exact Hf].
    rewrite He. cbn [effects set_effects]. rewrite forEach_count_eq, <- app_assoc.
    reflexivity.
  - intros tag. cbn [TagNode AuthorNode Mapper node_fields counted plain fields].
    split; [apply lookup_insert_eq |]. split; [apply lookup_insert_eq |].
    unfold get. rewrite lookup_insert_ne by discriminate. reflexivity.
Qed.

Lemma tags_and_authors_callbacks_witness :
  fetch (run [PostsSettle (Rejected (Thrown "503"))] init) Tags = Pending
  /\ result (run [PostsSettle (Rejected (Thrown "503"))] init) = Failed (Thrown "503")
  /\ exists more,
       effects (step (TagsSettle (Resolved [sample_tag]))
                  (run [PostsSettle (Rejected (Thrown "503"))] init))
         = effects (run [PostsSettle (Rejected (Thrown "503"))] init)
           ++ map (fun tag => CreateNode (TagNode (counted tag))) [sample_tag] ++ more
       /\ fetch (step (TagsSettle (Resolved [sample_tag]))
                   (run [PostsSettle (Rejected (Thrown "503"))] init)) Tags = Fulfilled.
Proof.
  split; [reflexivity |]. split; [reflexivity |].
  apply (proj1 (tags_and_authors_callbacks [sample_tag]
                  (run [PostsSettle (Rejected (Thrown "503"))] init))).
  reflexivity.
Defined.

Lemma map_start_eq (k : kind) (recs : list Content) (h : trace) :
  map_start k recs h =
  (map task_of recs,
   h ++ map (fun rec => CreateNode (factory k rec)) (without_image recs)).
Proof.
  revert h. induction recs as [| rec rest IH]; intros h; cbn [map_start map].
  - unfold without_image. cbn. rewrite app_nil_r. reflexivity.
  - unfold start_record, task_of, without_image.
    rewrite filter_cons.
    change (truthy (get (fields rec) "feature_image")) with (has_image rec).
    destruct (has_image rec) eqn:Hi; cbv beta iota zeta; rewrite IH.
    + destruct (decide (true = false)) as [Hd |]; [discriminate Hd |].
      reflexivity.
    + destruct (decide (false = false)) as [| Hd]; [| contradiction].
      cbn [map]. rewrite <- app_assoc. reflexivity.
Qed.

Lemma forallb_task_of (recs : list Content) :
  forallb is_done (map task_of recs) = forallb (fun rec => negb (has_image rec)) recs.
Proof.
  induction recs as [| rec rest IH]; [reflexivity |].
  cbn [map forallb]. rewrite IH. unfold task_of. destruct (has_image rec); reflexivity.
Qed.

Lemma on_all_fetched_eq (s : state) (ps pgs : list Content) :
  posts s = Some ps -> pages s = Some pgs ->
  tasks (on_all_fetched s) = Some (map task_of ps, map task_of pgs)
  /\ effects (on_all_fetched s)
     = effects s ++ map (fun rec => CreateNode (PostNode rec)) (without_image ps)
                 ++ map (fun rec => CreateNode (PageNode rec)) (without_image pgs)
  /\ result (on_all_fetched s)
     = (if is_pending (result s) then joined (map task_of ps) else result s)
  /\ posts (on_all_fetched s) = Some ps
  /\ pages (on_all_fetched s) = Some pgs.
Proof.
  intros Hps Hpgs. unfold on_all_fetched. rewrite Hps, Hpgs, !map_start_eq.
  match goal with
  | |- context [settle_result ?p ?s0] =>
      destruct (settle_result_others p s0) as (_ & Ht & He & Hp & Hg);
      pose proof (result_settle_result p s0) as Hr
  end.
  rewrite Ht, He, Hr, Hp, Hg. cbn [tasks effects result posts pages set_tasks].
  split; [reflexivity |]. split; [symmetry; apply app_assoc |].
  split; [reflexivity |]. split; assumption.
Qed.

(** X5: the callback of the outer [Promise.all].  The nodes of the posts
    without feature image are created at once, in the posts' order, then
    those of the pages without feature image; every record with a feature
    image is left waiting for its side-load.  A pending returned promise is
    fulfilled at once exactly when no post has a feature image: the pages
    play no part in it. *)
Theorem outer_callback_starts_records (s : state) (ps pgs : list Content) :
  posts s = Some ps -> pages s = Some pgs ->
  tasks (on_all_fetched s) = Some (map task_of ps, map task_of pgs)
  /\ effects (on_all_fetched s)
     = effects s ++ map (fun rec => CreateNode (PostNode rec)) (without_image ps)
                 ++ map (fun rec => CreateNode (PageNode rec)) (without_image pgs)
  /\ (result s = Pending ->
      result (on_all_fetched s)
      = if forallb (fun rec => negb (has_image rec)) ps then Fulfilled else Pending).
Proof.
  intros Hps Hpgs.
  destruct (on_all_fetched_eq s ps pgs Hps Hpgs) as (Ht & He & Hr & _).
  split; [exact Ht |]. split; [exact He |].
  intros Hp. rewrite Hr, Hp. cbn [is_pending]. unfold joined.
  rewrite forallb_task_of. reflexivity.
Qed.

Lemma outer_callback_starts_records_witness :
  posts (set_pages [image_page] (set_posts [plain_post] init)) = Some [plain_post]
  /\ pages (set_pages [image_page] (set_posts [plain_post] init)) = Some [image_page]
  /\ tasks (on_all_fetched (set_pages [image_page] (set_posts [plain_post] init)))
     = Some (map task_of [plain_post], map task_of [image_page])
  /\ effects (on_all_fetched (set_pages [image_page] (set_posts [plain_post] init)))
     = effects (set_pages [image_page] (set_posts [plain_post] init))
       ++ map (fun rec => CreateNode (PostNode rec)) (without_image [plain_post])
       ++ map (fun rec => CreateNode (PageNode rec)) (without_image [image_page])
  /\ (result (set_pages [image_page] (set_posts [plain_post] init)) = Pending ->
      result (on_all_fetched (set_pages [image_page] (set_posts [plain_post] init)))
      = if forallb (fun rec => negb (has_image rec)) [plain_post]
        then Fulfilled else Pending).
Proof.
  split; [reflexivity |]. split; [reflexivity |].
  apply (outer_callback_starts_records
           (set_pages [image_page] (set_posts [plain_post] init))
           [plain_post] [image_page]); reflexivity.
Defined.

(** ** Records, promises and side-loader calls in a run *)

Lemma task_ok_mono (k : kind) (h extra : trace) (rec : Content) (t : task) :
  task_ok k h rec t -> task_ok k (h ++ extra) rec t.
Proof.
  destruct t as [rec' | | e]; cbn; auto.
  intros (n & Hin & Hty & Hid). exists n. split; [apply in_or_app; left; exact Hin | auto].
Qed.

Lemma requested_by_node (ps pgs : list Content) (l : list Content) (mk : Content -> HostNode) :
  Forall (requested_by ps pgs) (map (fun rec => CreateNode (mk rec)) l).
Proof. induction l as [| rec rest IH]; constructor; [exact Logic.I | exact IH]. Qed.

Lemma factory_type (k : kind) (rec : Content) : node_type (factory k rec) = kind_type k.
Proof. destruct k; reflexivity. Qed.

Lemma task_of_ok (k : kind) (recs all : list Content) (h : trace) :
  (forall rec, In rec recs -> In rec all) ->
  Forall2 (task_ok k (h ++ map (fun rec => CreateNode (factory k rec)) (without_image all)))
          recs (map task_of recs).
Proof.
  intros Hsub. induction recs as [| rec rest IH]; cbn [map]; constructor.
  - unfold task_of. destruct (has_image rec) eqn:Hi; cbn; [auto |].
    exists (factory k rec). split.
    + apply in_or_app. right.
      apply (in_map (fun rec => CreateNode (factory k rec))).
      apply list_elem_of_In. unfold without_image. apply list_elem_of_filter.
      split; [exact Hi |]. apply list_elem_of_In, Hsub. left. reflexivity.
    + split; [apply factory_type | apply factory_fields].
  - apply IH. intros rec0 Hin. apply Hsub. right. exact Hin.
Qed.

Lemma resume_record_ok (k : kind) (rec : Content) (r : image_reply) (h : trace)
    (ps pgs : list Content) :
  has_image rec = true -> In rec ps \/ In rec pgs ->
  Forall (requested_by ps pgs) h ->
  task_ok k (snd (resume_record k rec r h)) rec (fst (resume_record k rec r h))
  /\ Forall (requested_by ps pgs) (snd (resume_record k rec r h))
  /\ exists extra, snd (resume_record k rec r h) = h ++ extra.
Proof.
  intros Hi Hin F. rewrite resume_record_eq.
  set (fi := get (fields rec) "feature_image"). set (id := get (fields rec) "id").
  assert (Hcalls : Forall (requested_by ps pgs)
            (sideload_calls fi id r ++
             match failure_of r with Some e => [Warn e] | None => [] end)).
  { apply Forall_app. split.
    - unfold sideload_calls. constructor.
      + exists rec. auto.
      + destruct r as [e | f [e1|] [e2|]]; repeat constructor.
    - destruct (failure_of r); repeat constructor. }
  destruct (sideload_result fi id r) as [f |]; cbn [fst snd].
  - split; [| split].
    + eexists. split; [apply in_or_app; right; left; reflexivity |].
      split; [apply factory_type |].
      destruct (factory_fields k
        {| fields := <["localFile___NODE" := VStr (file_id f)]> (fields rec);
           image := Some f |}) as (_ & _ & ->).
      cbn [fields]. unfold get. rewrite lookup_insert_ne by discriminate. reflexivity.
    + apply Forall_app. split; [apply Forall_app; split; assumption |].
      repeat constructor.
    + eexists. rewrite <- app_assoc. reflexivity.
  - split; [exact Logic.I |]. split; [apply Forall_app; split; assumption |].
    eexists. reflexivity.
Qed.

Lemma no_request_before_start (s : state) :
  reachable_inv s -> tasks s = None ->
  forall ps pgs, Forall (requested_by ps pgs) (effects s).
Proof.
  intros I Hn ps pgs. destruct (inv_trace s I) as (rest & -> & F).
  unfold started in F. rewrite Hn in F.
  apply Forall_app. split.
  - unfold resources. repeat constructor.
  - eapply Forall_impl; [exact F |]. intros e He.
    destruct e as [r | n | u p | fid nm v | er]; cbn in He |- *;
      try exact Logic.I; discriminate He.
Qed.

Lemma browse_settles_records {A : Type} (r : resource) (o : outcome A)
    (k : A -> state -> state) (s : state) :
  quiet_callback k -> reachable_inv s -> records_inv s ->
  records_inv (browse_settles r o k s).
Proof.
  intros Hk I R. unfold browse_settles.
  destruct (fetch s r) eqn:Hr; [| exact R | exact R].
  destruct (not_started_while_pending s r I Hr) as [Hnone _].
  destruct o as [a | e].
  - destruct (resolved_inv r k a s Hk I Hr) as [I1 _].
    destruct (Hk a s) as (_ & Ht & _).
    set (s1 := set_fetch r Fulfilled (k a s)) in *.
    assert (Hn1 : tasks s1 = None) by (cbn [s1 tasks set_fetch]; congruence).
    destruct (all_fulfilled s1).
    + destruct (posts s1) as [ps |] eqn:Hps, (pages s1) as [pgs |] eqn:Hpgs.
      1: { destruct (on_all_fetched_eq s1 ps pgs Hps Hpgs) as (Hts & He & _ & Hp & Hg).
           intros pts pgts Hsome. rewrite Hts in Hsome. injection Hsome as <- <-.
           exists ps, pgs. rewrite He, Hp, Hg.
           split; [reflexivity |]. split; [reflexivity |]. split; [| split].
           - rewrite app_assoc. apply Forall2_impl with
               (P := task_ok KPost (effects s1 ++
                       map (fun rec => CreateNode (factory KPost rec)) (without_image ps))).
             + apply task_of_ok. auto.
             + intros rec t. apply task_ok_mono.
           - rewrite (app_assoc (effects s1)), <- (app_assoc _ _ (map _ (without_image pgs))).
             rewrite (app_assoc (effects s1)).
             pose proof (task_of_ok KPage pgs pgs
                           (effects s1 ++ map (fun rec => CreateNode (PostNode rec))
                                            (without_image ps))
                           (fun _ H => H)) as Hpg.
             rewrite <- app_assoc in Hpg |- *. exact Hpg.
           - apply Forall_app. split; [apply no_request_before_start; assumption |].
             apply Forall_app. split; apply requested_by_node. }
      all: intros pts pgts Hsome; unfold on_all_fetched in Hsome;
           rewrite Hps, ?Hpgs in Hsome;
           destruct (settle_result_others
                       (Failed (TypeError "Cannot read property 'map' of undefined")) s1)
             as (_ & Ht1 & _);
           rewrite Ht1, Hn1 in Hsome; discriminate Hsome.
    + intros pts pgts Hsome. rewrite Hn1 in Hsome. discriminate Hsome.
  - intros pts pgts Hsome.
    destruct (settle_result_others (Failed e) (set_fetch r (Failed e) s)) as (_ & Ht & _).
    rewrite Ht in Hsome. cbn [tasks set_fetch] in Hsome. rewrite Hnone in Hsome.
    discriminate Hsome.
Qed.

Lemma Forall2_task_update (k : kind) (h extra : trace) (recs : list Content)
    (ts : list task) (i : nat) (rec : Content) (t : task) :
  Forall2 (task_ok k h) recs ts ->
  recs !! i = Some rec ->
  task_ok k (h ++ extra) rec t ->
  Forall2 (task_ok k (h ++ extra)) recs (<[i := t]> ts).
Proof.
  intros F Hi Ht.
  rewrite <- (list_insert_id recs i rec Hi).
  apply Forall2_insert; [| exact Ht].
  eapply Forall2_impl; [exact F |]. intros rec0 t0. apply task_ok_mono.
Qed.

Lemma image_settles_records (k : kind) (i : nat) (r : image_reply) (s : state) :
  records_inv s -> records_inv (image_settles k i r s).
Proof.
  intros R. unfold image_settles.
  destruct (tasks s) as [[pts pgts] |] eqn:Et; [| exact R].
  destruct (R pts pgts Et) as (ps & pgs & Hps & Hpgs & Fp & Fg & Fr).
  destruct k.
  - destruct (pts !! i) as [[rec | | e] |] eqn:Ei; try exact R.
    destruct (Forall2_lookup_r _ _ _ _ _ Fp Ei) as (rec0 & Hrec0 & Hok).
    destruct Hok as [-> Himg].
    assert (Hin : In rec0 ps \/ In rec0 pgs).
    { left. apply list_elem_of_In, list_elem_of_lookup. eauto. }
    destruct (resume_record_ok KPost rec0 r (effects s) ps pgs Himg Hin Fr)
      as (Hok & Hreq & extra & Hh).
    destruct (resume_record KPost rec0 r (effects s)) as [t h].
    cbn [fst snd] in Hok, Hreq, Hh. subst h.
    intros pts' pgts' Hsome.
    match type of Hsome with
    | tasks (settle_result ?p ?s0) = _ =>
        destruct (settle_result_others p s0) as (_ & Ht & He & Hp & Hg)
    end.
    rewrite Ht in Hsome. cbn [tasks set_tasks] in Hsome. injection Hsome as <- <-.
    exists ps, pgs. rewrite He, Hp, Hg. cbn [effects posts pages set_tasks].
    split; [exact Hps |]. split; [exact Hpgs |]. split; [| split].
    + apply Forall2_task_update with (rec := rec0); assumption.
    + eapply Forall2_impl; [exact Fg |]. intros rec1 t1. apply task_ok_mono.
    + exact Hreq.
  - destruct (pgts !! i) as [[rec | | e] |] eqn:Ei; try exact R.
    destruct (Forall2_lookup_r _ _ _ _ _ Fg Ei) as (rec0 & Hrec0 & Hok).
    destruct Hok as [-> Himg].
    assert (Hin : In rec0 ps \/ In rec0 pgs).
    { right. apply list_elem_of_In, list_elem_of_lookup. eauto. }
    destruct (resume_record_ok KPage rec0 r (effects s) ps pgs Himg Hin Fr)
      as (Hok & Hreq & extra & Hh).
    destruct (resume_record KPage rec0 r (effects s)) as [t h].
    cbn [fst snd] in Hok, Hreq, Hh. subst h.
    intros pts' pgts' Hsome. cbn [tasks set_tasks] in Hsome. injection Hsome as <- <-.
    exists ps, pgs. cbn [effects posts pages set_tasks].
    split; [exact Hps |]. split; [exact Hpgs |]. split; [| split].
    + eapply Forall2_impl; [exact Fp |]. intros rec1 t1. apply task_ok_mono.
    + apply Forall2_task_update with (rec := rec0); assumption.
    + exact Hreq.
Qed.

Lemma step_records (ev : event) (s : state) :
  reachable_inv s -> records_inv s -> records_inv (step ev s).
Proof.
  intros I R. destruct ev as [o | o | o | o | o | k i r]; cbn [step].
  - apply browse_settles_records; [apply set_posts_quiet | exact I | exact R].
  - apply browse_settles_records; [apply set_pages_quiet | exact I | exact R].
  - apply browse_settles_records; [| exact I | exact R].
    apply forEach_count_quiet. intros c. left. reflexivity.
  - apply browse_settles_records; [| exact I | exact R].
    apply forEach_count_quiet. intros c. right. reflexivity.
  - apply browse_settles_records; [apply on_settings_quiet | exact I | exact R].
  - apply image_settles_records, R.
Qed.

Lemma run_records (evs : list event) (s : state) :
  reachable_inv s -> records_inv s ->
  reachable_inv (run evs s) /\ records_inv (run evs s).
Proof.
  revert s. induction evs as [| ev rest IH]; intros s I R; cbn [run]; [auto |].
  apply IH; [apply step_inv, I | apply step_records; assumption].
Qed.

Lemma reachable_records (evs : list event) :
  reachable_inv (run evs init) /\ records_inv (run evs init).
Proof.
  apply run_records; [apply init_inv |]. intros pts pgts H. discriminate H.
Qed.

(** X6: in every run, a post or page node, a side-loader call or a warning
    appears in the trace only after all five browse calls have resolved:
    the per-record processing never starts on partial data. *)
Theorem records_wait_for_all_fetches (evs : list event) (e : effect) :
  In e (effects (run evs init)) ->
  match e with
  | Browse _ => False
  | CreateNode n => node_type n = TPost \/ node_type n = TPage
  | _ => True
  end ->
  forall r, fetch (run evs init) r = Fulfilled.
Proof.
  intros Hin He. pose proof (reachable evs) as I.
  apply (inv_started _ I).
  destruct (inv_trace _ I) as (rest & E & F).
  rewrite E in Hin. apply in_app_or in Hin as [Hin | Hin].
  - apply in_map_iff in Hin as (r0 & <- & _). destruct He.
  - rewrite Forall_forall in F. apply list_elem_of_In in Hin. specialize (F e Hin).
    destruct e as [r0 | n | u p | fid nm v | er]; cbn in F; try exact F; [destruct He |].
    destruct He as [Hty | Hty]; rewrite Hty in F; exact F.
Qed.

Lemma records_wait_for_all_fetches_witness :
  In (Warn (Thrown "404"))
     (effects (run (fetched_one_image_post ++
                    [ImageSettle KPost 0 (DownloadFails (Thrown "404"))]) init))
  /\ forall r, fetch (run (fetched_one_image_post ++
                           [ImageSettle KPost 0 (DownloadFails (Thrown "404"))]) init) r
               = Fulfilled.
Proof.
  assert (Hin : In (Warn (Thrown "404"))
     (effects (run (fetched_one_image_post ++
                    [ImageSettle KPost 0 (DownloadFails (Thrown "404"))]) init))).
  { vm_compute. do 7 right. left. reflexivity. }
  split; [exact Hin |].
  exact (records_wait_for_all_fetches _ _ Hin Logic.I).
Defined.

(** X7: in every run, every [createRemoteFileNode] call is for a post or a
    page of the fetched lists that has a truthy [feature_image]: the [url]
    is that record's [feature_image] and the [parentNodeId] is its [id].
    Records whose [feature_image] is absent, [null] or the empty string are
    never side-loaded. *)
Theorem side_loads_are_for_fetched_images (evs : list event) (url pid : value) :
  In (CreateRemoteFileNode url pid) (effects (run evs init)) ->
  exists ps pgs rec,
    posts (run evs init) = Some ps /\ pages (run evs init) = Some pgs
    /\ (In rec ps \/ In rec pgs)
    /\ url = get (fields rec) "feature_image"
    /\ pid = get (fields rec) "id"
    /\ truthy url = true
    /\ url <> VUndef /\ url <> VNull /\ url <> VStr EmptyString.
Proof.
  intros Hin. destruct (reachable_records evs) as [I R].
  destruct (tasks (run evs init)) as [[pts pgts] |] eqn:Et.
  - destruct (R pts pgts Et) as (ps & pgs & Hps & Hpgs & _ & _ & Fr).
    rewrite Forall_forall in Fr. apply list_elem_of_In in Hin.
    destruct (Fr _ Hin) as (rec & Hrec & Himg & -> & ->).
    exists ps, pgs, rec. unfold has_image in Himg.
    repeat split; auto; intros Heq; rewrite Heq in Himg; discriminate Himg.
  - pose proof (no_request_before_start _ I Et [] []) as F.
    rewrite Forall_forall in F. apply list_elem_of_In in Hin.
    destruct (F _ Hin) as (rec & [[] | []] & _).
Qed.

Lemma side_loads_are_for_fetched_images_witness :
  In (CreateRemoteFileNode sample_url (VStr "p1"))
     (effects (run (fetched_one_image_post ++
                    [ImageSettle KPost 0 (DownloadFails (Thrown "404"))]) init))
  /\ exists ps pgs rec,
       posts (run (fetched_one_image_post ++
                   [ImageSettle KPost 0 (DownloadFails (Thrown "404"))]) init) = Some ps
       /\ pages (run (fetched_one_image_post ++
                      [ImageSettle KPost 0 (DownloadFails (Thrown "404"))]) init) = Some pgs
       /\ (In rec ps \/ In rec pgs)
       /\ sample_url = get (fields rec) "feature_image"
       /\ VStr "p1" = get (fields rec) "id"
       /\ truthy sample_url = true
       /\ sample_url <> VUndef /\ sample_url <> VNull /\ sample_url <> VStr EmptyString.
Proof.
  assert (Hin : In (CreateRemoteFileNode sample_url (VStr "p1"))
     (effects (run (fetched_one_image_post ++
                    [ImageSettle KPost 0 (DownloadFails (Thrown "404"))]) init))).
  { vm_compute. do 6 right. left. reflexivity. }
  split; [exact Hin |].
  exact (side_loads_are_for_fetched_images _ _ _ Hin).
Defined.

Lemma forallb_is_done_lookup_Done (ts : list task) (i : nat) (t : task) :
  forallb is_done ts = true -> ts !! i = Some t -> t = Done.
Proof.
  revert i. induction ts as [| t0 ts IH]; intros i Hall Hi; [discriminate Hi |].
  cbn in Hall. apply andb_prop in Hall as [Ht Hts].
  destruct i as [| i]; cbn in Hi.
  - injection Hi as <-. destruct t0; [discriminate Ht | reflexivity | discriminate Ht].
  - exact (IH i Hts Hi).
Qed.

(** X8: in every run, when the returned promise is fulfilled, every post of
    the fetched list has its node: a [createNode] call with a post node
    carrying that post's [id] is in the trace. *)
Theorem fulfilled_means_every_post_has_node (evs : list event) :
  result (run evs init) = Fulfilled ->
  exists ps, posts (run evs init) = Some ps
    /\ forall rec, In rec ps ->
         exists n, In n (created (effects (run evs init)))
                   /\ node_type n = TPost
                   /\ node_id n = get (fields rec) "id".
Proof.
  intros Hf. destruct (reachable_records evs) as [I R].
  destruct (inv_fulfilled _ I Hf) as (pts & pgts & Ht & Hd).
  destruct (R pts pgts Ht) as (ps & pgs & Hps & _ & Fp & _ & _).
  exists ps. split; [exact Hps |].
  intros rec Hin. apply list_elem_of_In, list_elem_of_lookup in Hin as [i Hi].
  destruct (Forall2_lookup_l _ _ _ _ _ Fp Hi) as (t & Hti & Hok).
  rewrite (forallb_is_done_lookup_Done pts i t Hd Hti) in Hok.
  destruct Hok as (n & Hn & Hty & Hid).
  exists n. split; [apply created_In, Hn | auto].
Qed.

Lemma fulfilled_means_every_post_has_node_witness :
  result (run (fetched_one_image_post ++
               [ImageSettle KPost 0 (Downloaded sample_file None None)]) init) = Fulfilled
  /\ exists ps,
       posts (run (fetched_one_image_post ++
                   [ImageSettle KPost 0 (Downloaded sample_file None None)]) init) = Some ps
       /\ forall rec, In rec ps ->
            exists n,
              In n (created (effects (run (fetched_one_image_post ++
                      [ImageSettle KPost 0 (Downloaded sample_file None None)]) init)))
              /\ node_type n = TPost
              /\ node_id n = get (fields rec) "id".
Proof.
  assert (Hf : result (run (fetched_one_image_post ++
               [ImageSettle KPost 0 (Downloaded sample_file None None)]) init) = Fulfilled).
  { reflexivity. }
  split; [exact Hf |].
  exact (fulfilled_means_every_post_has_node _ Hf).
Defined.

(** ** The pages' side-loads and the returned promise *)

Lemma same_settle_result (p : status) (s s' : state) :
  same_outcome s s' -> same_outcome (settle_result p s) (settle_result p s').
Proof.
  intros (Hf & Hp & Hg & Hr & Ht).
  destruct (settle_result_others p s) as (Ef & Et & _ & Ep & Eg).
  destruct (settle_result_others p s') as (Ef' & Et' & _ & Ep' & Eg').
  unfold same_outcome.
  rewrite Ef, Ef', Et, Et', Ep, Ep', Eg, Eg', !result_settle_result, Hr.
  repeat split; auto.
Qed.

Lemma same_set_fetch (r : resource) (p : status) (s s' : state) :
  same_outcome s s' -> same_outcome (set_fetch r p s) (set_fetch r p s').
Proof.
  intros (Hf & Hp & Hg & Hr & Ht). unfold same_outcome.
  cbn [fetch posts pages result tasks set_fetch]. repeat split; auto.
  intros r'. rewrite Hf. reflexivity.
Qed.

Lemma same_all_fulfilled (s s' : state) :
  same_outcome s s' -> all_fulfilled s = all_fulfilled s'.
Proof.
  intros (Hf & _). unfold all_fulfilled, resources. cbn [forallb]. rewrite !Hf. reflexivity.
Qed.

Lemma same_on_all_fetched (s s' : state) :
  same_outcome s s' -> same_outcome (on_all_fetched s) (on_all_fetched s').
Proof.
  intros H. pose proof H as (Hf & Hp & Hg & Hr & Ht).
  destruct (posts s) as [ps |] eqn:Eps, (pages s) as [pgs |] eqn:Epgs.
  1: { destruct (on_all_fetched_eq s ps pgs Eps Epgs) as (T & _ & Rs & P & G).
       destruct (on_all_fetched_eq s' ps pgs (eq_sym Hp) (eq_sym Hg))
         as (T' & _ & Rs' & P' & G').
       unfold same_outcome.
       rewrite !on_all_fetched_fetch, T, T', Rs, Rs', P, P', G, G', Hr.
       repeat split; auto. }
  all: unfold on_all_fetched; rewrite <- Hp, <- ?Hg, Eps, ?Epgs;
       apply same_settle_result, H.
Qed.

Lemma same_browse_settles {A : Type} (r : resource) (o : outcome A)
    (k : A -> state -> state) (s s' : state) :
  (forall a s0 s0', same_outcome s0 s0' -> same_outcome (k a s0) (k a s0')) ->
  same_outcome s s' ->
  same_outcome (browse_settles r o k s) (browse_settles r o k s').
Proof.
  intros Hk H. unfold browse_settles.
  destruct H as (Hf & Hrest). rewrite <- Hf.
  assert (H : same_outcome s s') by (split; assumption).
  destruct (fetch s r); [| exact H | exact H].
  destruct o as [a | e].
  - pose proof (same_set_fetch r Fulfilled _ _ (Hk a s s' H)) as H1.
    rewrite <- (same_all_fulfilled _ _ H1).
    destruct (all_fulfilled _); [apply same_on_all_fetched, H1 | exact H1].
  - apply same_settle_result, same_set_fetch, H.
Qed.

Lemma resume_record_fst (k : kind) (rec : Content) (r : image_reply) (h h' : trace) :
  fst (resume_record k rec r h) = fst (resume_record k rec r h').
Proof.
  rewrite !resume_record_eq. destruct (sideload_result _ _ r); reflexivity.
Qed.

Lemma same_post_image (i : nat) (r : image_reply) (s s' : state) :
  same_outcome s s' ->
  same_outcome (image_settles KPost i r s) (image_settles KPost i r s').
Proof.
  intros H. pose proof H as (Hf & Hp & Hg & Hr & Ht). unfold image_settles.
  destruct (tasks s) as [[pts pgts] |] eqn:Et, (tasks s') as [[pts' pgts'] |] eqn:Et';
    cbn in Ht; try discriminate Ht; [| exact H].
  injection Ht as <-.
  destruct (pts !! i) as [[rec | | e] |]; try exact H.
  pose proof (resume_record_fst KPost rec r (effects s) (effects s')) as Hfst.
  destruct (resume_record KPost rec r (effects s)) as [t h].
  destruct (resume_record KPost rec r (effects s')) as [t' h'].
  cbn [fst] in Hfst. subst t'.
  apply same_settle_result. unfold same_outcome.
  cbn [fetch posts pages result tasks set_tasks option_map fst]. repeat split; auto.
Qed.

Lemma same_page_image (i : nat) (r : image_reply) (s s' : state) :
  same_outcome s s' -> same_outcome (image_settles KPage i r s) s'.
Proof.
  intros H. pose proof H as (Hf & Hp & Hg & Hr & Ht). unfold image_settles.
  destruct (tasks s) as [[pts pgts] |] eqn:Et; [| exact H].
  assert (Hs : same_outcome s s') by exact H.
  destruct (pgts !! i) as [[rec | | e] |]; try exact H.
  destruct (resume_record KPage rec r (effects s)) as [t h].
  unfold same_outcome. cbn [fetch posts pages result tasks set_tasks].
  repeat split; auto.
Qed.

Lemma same_step (ev : event) (s s' : state) :
  same_outcome s s' ->
  same_outcome (step ev s) (if is_page_image ev then s' else step ev s').
Proof.
  intros H. destruct ev as [o | o | o | o | o | k i r]; cbn [step is_page_image].
  - apply same_browse_settles; [| exact H].
    intros a s0 s0' (Hf & Hp & Hg & Hr & Ht). repeat split; auto.
  - apply same_browse_settles; [| exact H].
    intros a s0 s0' (Hf & Hp & Hg & Hr & Ht). repeat split; auto.
  - apply same_browse_settles; [| exact H]. intros a s0 s0' H0. exact H0.
  - apply same_browse_settles; [| exact H]. intros a s0 s0' H0. exact H0.
  - apply same_browse_settles; [| exact H]. intros a s0 s0' H0. exact H0.
  - destruct k; [apply same_post_image, H | apply same_page_image, H].
Qed.

Lemma same_run (evs : list event) (s s' : state) :
  same_outcome s s' ->
  same_outcome (run evs s)
               (run (List.filter (fun ev => negb (is_page_image ev)) evs) s').
Proof.
  revert s s'. induction evs as [| ev rest IH]; intros s s' H; cbn [run List.filter];
    [exact H |].
  pose proof (same_step ev s s' H) as Hs.
  destruct (is_page_image ev); cbn [negb run]; apply IH, Hs.
Qed.

(** X9: what the host answers to the pages' side-loads, and whether it
    answers at all, never changes the outcome of the run: the returned
    promise, the five fetches and the posts' promises are the same as in
    the run with the pages' answers left out.  In particular a page whose
    download fails never rejects the returned promise. *)
Theorem page_images_do_not_affect_the_outcome (evs : list event) :
  let s := run evs init in
  let s' := run (List.filter (fun ev => negb (is_page_image ev)) evs) init in
  result s = result s'
  /\ (forall r, fetch s r = fetch s' r)
  /\ option_map fst (tasks s) = option_map fst (tasks s').
Proof.
  assert (H0 : same_outcome init init) by (repeat split).
  destruct (same_run evs init init H0) as (Hf & _ & _ & Hr & Ht).
  cbv zeta. auto.
Qed.

(** ** Further properties of the placeholder manager *)

Lemma call_handlers_calls (snapshot : list nat) (w : world) :
  calls (call_handlers snapshot w)
  = calls w ++ flat_map (handler_calls (fakeNodes w)) snapshot.
Proof.
  revert w. induction snapshot as [| c rest IH]; intros w; cbn [call_handlers flat_map].
  - symmetry. apply app_nil_r.
  - rewrite IH, onSchemaUpdate_eq. cbn [calls fakeNodes].
    unfold handler_calls. rewrite <- !app_assoc. reflexivity.
Qed.

Lemma call_handlers_next (snapshot : list nat) (w : world) :
  next_closure (call_handlers snapshot w) = next_closure w.
Proof.
  revert w. induction snapshot as [| c rest IH]; intros w; cbn [call_handlers];
    [reflexivity |].
  rewrite IH, onSchemaUpdate_eq. reflexivity.
Qed.

Lemma fake_ids_stamp (nodes : list FakeNode) : fake_ids (map stamp nodes) = fake_ids nodes.
Proof. unfold fake_ids. rewrite map_map. reflexivity. Qed.

(** X10: what one [SET_SCHEMA] does, in any state: every handler registered
    at that moment runs once, in registration order, and each calls
    [deleteNode] on every fake node and then takes itself off the emitter;
    so with [k] handlers registered every fake node is deleted [k] times.
    Afterwards no handler is registered.  The fake nodes themselves are not
    touched: the owner marker the host put on them stays, which is what the
    next activation has to clear.  With no handler registered the signal
    does nothing. *)
Theorem signal_runs_every_handler_once (w : world) :
  calls (emit_SET_SCHEMA w)
    = calls w ++ flat_map (handler_calls (fakeNodes w)) (listeners w)
  /\ listeners (emit_SET_SCHEMA w) = []
  /\ fakeNodes (emit_SET_SCHEMA w) = fakeNodes w
  /\ next_closure (emit_SET_SCHEMA w) = next_closure w
  /\ (listeners w = [] -> emit_SET_SCHEMA w = w).
Proof.
  unfold emit_SET_SCHEMA.
  destruct (call_handlers_spec (listeners w) w) as (Hf & Hl & _).
  split; [apply call_handlers_calls |].
  split; [rewrite Hl; apply emitter_off_all; reflexivity |].
  split; [exact Hf |]. split; [apply call_handlers_next |].
  intros ->. reflexivity.
Qed.

(** X11: activation and retraction on the host's store.  An activation
    puts every fake node into the store; the [SET_SCHEMA] after it takes
    every fake node out again and leaves the other nodes alone.  If none of
    the fake identifiers was in the store before, the store is back to what
    it was. *)
Theorem activation_then_signal_restores_store (w w1 : world) :
  createTemporaryFakeNodes w = inr w1 ->
  store w1 = fake_ids (fakeNodes w) ∪ store w
  /\ (forall n, In n (fakeNodes w) -> fake_id n ∈ store w1)
  /\ store (emit_SET_SCHEMA w1) = store w ∖ fake_ids (fakeNodes w)
  /\ ((forall n, In n (fakeNodes w) -> fake_id n ∉ store w) ->
      store (emit_SET_SCHEMA w1) = store w).
Proof.
  intros Hact. rewrite createTemporaryFakeNodes_eq in Hact. injection Hact as <-.
  cbn [store fakeNodes].
  assert (Hstore : store (emit_SET_SCHEMA
                    {| fakeNodes := map stamp (fakeNodes w);
                       store := fake_ids (fakeNodes w) ∪ store w;
                       listeners := listeners w ++ [next_closure w];
                       next_closure := S (next_closure w);
                       calls := (calls w ++ map create_call (fakeNodes w))
                                ++ [EmitterOn (next_closure w)] |})
                   = store w ∖ fake_ids (fakeNodes w)).
  { unfold emit_SET_SCHEMA. cbn [listeners].
    match goal with
    | |- store (call_handlers ?snap ?w0) = _ =>
        destruct (call_handlers_spec snap w0) as (_ & _ & Hs & _)
    end.
    rewrite Hs.
    - cbn [store fakeNodes]. rewrite fake_ids_stamp.
      rewrite difference_union_distr_l_L, difference_diag_L, union_empty_l_L.
      reflexivity.
    - intros H. apply app_eq_nil in H as [_ H]. discriminate H. }
  split; [reflexivity |]. split; [| split; [exact Hstore |]].
  - intros n Hn. apply elem_of_union. left.
    unfold fake_ids. apply elem_of_list_to_set, list_elem_of_In, in_map, Hn.
  - intros Hfree. rewrite Hstore. apply difference_disjoint_L.
    apply elem_of_disjoint. intros x Hx Hid.
    unfold fake_ids in Hid. apply elem_of_list_to_set, list_elem_of_In in Hid.
    apply in_map_iff in Hid as (n & <- & Hn). exact (Hfree n Hn Hx).
Qed.

Lemma activation_then_signal_restores_store_witness :
  createTemporaryFakeNodes sample_world = inr sample_world_active
  /\ store sample_world_active = fake_ids (fakeNodes sample_world) ∪ store sample_world
  /\ (forall n, In n (fakeNodes sample_world) -> fake_id n ∈ store sample_world_active)
  /\ store (emit_SET_SCHEMA sample_world_active)
     = store sample_world ∖ fake_ids (fakeNodes sample_world)
  /\ ((forall n, In n (fakeNodes sample_world) -> fake_id n ∉ store sample_world) ->
      store (emit_SET_SCHEMA sample_world_active) = store sample_world).
Proof.
  assert (H : createTemporaryFakeNodes sample_world = inr sample_world_active).
  { vm_compute. reflexivity. }
  split; [exact H |].
  exact (activation_then_signal_restores_store sample_world sample_world_active H).
Defined.

(** X12: the two hooks without a [SET_SCHEMA] in between.  Starting with no
    handler registered, [sourceNodes] and then [onPreExtractQueries] leave
    two handlers on the emitter, one per activation; the next [SET_SCHEMA]
    runs both, so [deleteNode] is called on every fake node twice, the
    second time on nodes the first handler has already deleted. *)
Theorem two_activations_delete_twice (w w1 w2 : world) (s : state) :
  listeners w = [] ->
  sourceNodes w = inr (w1, s) ->
  onPreExtractQueries w1 = inr w2 ->
  listeners w2 = [next_closure w; S (next_closure w)]
  /\ calls (emit_SET_SCHEMA w2)
     = calls w2 ++ handler_calls (fakeNodes w2) (next_closure w)
                ++ handler_calls (fakeNodes w2) (S (next_closure w))
  /\ store (onSchemaUpdate (next_closure w) w2) = store w2 ∖ fake_ids (fakeNodes w2)
  /\ forall n, In n (fakeNodes w2) ->
       fake_id n ∉ store (onSchemaUpdate (next_closure w) w2).
Proof.
  intros Hl H1 H2. unfold sourceNodes in H1. unfold onPreExtractQueries in H2.
  rewrite createTemporaryFakeNodes_eq in H1. injection H1 as <- _.
  rewrite createTemporaryFakeNodes_eq in H2. injection H2 as <-.
  cbn [listeners next_closure fakeNodes]. rewrite Hl.
  split; [reflexivity |]. split; [| split].
  - unfold emit_SET_SCHEMA. rewrite call_handlers_calls.
    cbn [listeners fakeNodes flat_map]. rewrite ?Hl. cbn [app flat_map].
    rewrite app_nil_r. reflexivity.
  - rewrite onSchemaUpdate_eq. reflexivity.
  - intros n Hn. rewrite onSchemaUpdate_eq. cbn [store fakeNodes].
    intros Hin. apply elem_of_difference in Hin as [_ Hnot]. apply Hnot.
    unfold fake_ids. apply elem_of_list_to_set, list_elem_of_In, in_map, Hn.
Qed.

Lemma two_activations_delete_twice_witness :
  listeners sample_world = []
  /\ sourceNodes sample_world = inr (sample_world_active, init)
  /\ onPreExtractQueries sample_world_active = inr sample_world_twice
  /\ listeners sample_world_twice
     = [next_closure sample_world; S (next_closure sample_world)]
  /\ calls (emit_SET_SCHEMA sample_world_twice)
     = calls sample_world_twice
       ++ handler_calls (fakeNodes sample_world_twice) (next_closure sample_world)
       ++ handler_calls (fakeNodes sample_world_twice) (S (next_closure sample_world))
  /\ store (onSchemaUpdate (next_closure sample_world) sample_world_twice)
     = store sample_world_twice ∖ fake_ids (fakeNodes sample_world_twice)
  /\ forall n, In n (fakeNodes sample_world_twice) ->
       fake_id n ∉ store (onSchemaUpdate (next_closure sample_world) sample_world_twice).
Proof.
  assert (H1 : sourceNodes sample_world = inr (sample_world_active, init)).
  { vm_compute. reflexivity. }
  assert (H2 : onPreExtractQueries sample_world_active = inr sample_world_twice).
  { vm_compute. reflexivity. }
  split; [reflexivity |]. split; [exact H1 |]. split; [exact H2 |].
  exact (two_activations_delete_twice sample_world sample_world_active
           sample_world_twice init eq_refl H1 H2).
Defined.

(** ** Where a rejection comes from *)

Lemma resume_record_outcome (k : kind) (rec : Content) (r : image_reply) (h : trace) :
  fst (resume_record k rec r h) = Done
  \/ fst (resume_record k rec r h) = Crashed undefined_id.
Proof.
  rewrite resume_record_eq. destruct (sideload_result _ _ r); [left | right]; reflexivity.
Qed.

Lemma task_of_not_crashed (recs : list Content) (i : nat) (e : error) :
  map task_of recs !! i = Some (Crashed e) -> False.
Proof.
  rewrite list_lookup_fmap. destruct (recs !! i) as [rec |]; cbn; [| discriminate].
  unfold task_of. destruct (has_image rec); discriminate.
Qed.

Lemma browse_settles_failure {A : Type} (r : resource) (o : outcome A)
    (k : A -> state -> state) (s : state) :
  quiet_callback k -> assigning_callback r k ->
  reachable_inv s -> failure_inv s -> failure_inv (browse_settles r o k s).
Proof.
  intros Hk Ha I (Fp & Fg & Fe & Fc). unfold browse_settles.
  destruct (fetch s r) eqn:Hr; [| repeat split; assumption | repeat split; assumption].
  destruct (not_started_while_pending s r I Hr) as [Hnone _].
  assert (Hcause : forall e, result s = Failed e ->
            exists r0, r0 <> r /\ fetch s r0 = Failed e).
  { intros e He. destruct (Fe e He) as [[r0 H0] | (_ & pts & pgts & i & Ht & _)].
    - exists r0. split; [congruence | exact H0].
    - rewrite Hnone in Ht. discriminate Ht. }
  destruct o as [a | e].
  - destruct (Hk a s) as (Hf & Ht & Hres & _). destruct (Ha a s) as [Ap Ag].
    set (s1 := set_fetch r Fulfilled (k a s)).
    assert (F1 : failure_inv s1).
    { unfold failure_inv. cbn [s1 fetch posts pages result tasks set_fetch].
      rewrite Hf, Ht, Hres, Hnone. split; [| split; [| split]].
      - destruct (decide (Posts = r)) as [<- | Hne]; intros H; apply Ap; auto.
      - destruct (decide (Pages = r)) as [<- | Hne]; intros H; apply Ag; auto.
      - intros e He. left. destruct (Hcause e He) as (r0 & Hne & H0).
        exists r0. destruct (decide (r0 = r)); [contradiction | exact H0].
      - intros pts pgts i e H. discriminate H. }
    destruct (all_fulfilled s1) eqn:Hall0; [| exact F1].
    pose proof (proj1 (all_fulfilled_spec s1) Hall0) as Hall.
    destruct F1 as (Fp1 & Fg1 & Fe1 & _).
    destruct (posts s1) as [ps |] eqn:Eps; [| exfalso; exact (Fp1 (Hall Posts) eq_refl)].
    destruct (pages s1) as [pgs |] eqn:Epgs; [| exfalso; exact (Fg1 (Hall Pages) eq_refl)].
    destruct (on_all_fetched_eq s1 ps pgs Eps Epgs) as (T & _ & Rs & P & G).
    unfold failure_inv. rewrite on_all_fetched_fetch, T, Rs, P, G.
    split; [discriminate |]. split; [discriminate |]. split.
    + intros e0 He0. left.
      destruct (result s1) as [| | e1] eqn:Er; cbn [is_pending] in He0.
      * unfold joined in He0. destruct (forallb _ _); discriminate He0.
      * discriminate He0.
      * destruct (Fe1 e0 He0) as [H | (_ & pts & pgts & i & Hts & _)]; [exact H |].
        cbn [s1 tasks set_fetch] in Hts. rewrite Ht, Hnone in Hts. discriminate Hts.
    + intros pts pgts i e0 Hsome Hi. injection Hsome as <- <-.
      destruct (task_of_not_crashed ps i e0 Hi).
  - destruct (settle_result_others (Failed e) (set_fetch r (Failed e) s))
      as (Ef & Et & _ & Ep & Eg).
    pose proof (result_settle_result (Failed e) (set_fetch r (Failed e) s)) as Er.
    unfold failure_inv. rewrite Ef, Et, Ep, Eg, Er.
    cbn [fetch posts pages result tasks set_fetch]. rewrite Hnone.
    split; [| split; [| split]].
    + destruct (decide (Posts = r)); [discriminate | exact Fp].
    + destruct (decide (Pages = r)); [discriminate | exact Fg].
    + intros e0 He0. left. destruct (result s) as [| | e1] eqn:Eres; cbn [is_pending] in He0.
      * injection He0 as <-. exists r.
        destruct (decide (r = r)); [reflexivity | contradiction].
      * discriminate He0.
      * destruct (Hcause e0 He0) as (r0 & Hne & H0).
        exists r0. destruct (decide (r0 = r)); [contradiction | exact H0].
    + intros pts pgts i e0 H. discriminate H.
Qed.

Lemma image_settles_failure (k : kind) (i : nat) (r : image_reply) (s : state) :
  reachable_inv s -> failure_inv s -> failure_inv (image_settles k i r s).
Proof.
  intros I F. pose proof F as (Fp & Fg & Fe & Fc). unfold image_settles.
  destruct (tasks s) as [[pts pgts] |] eqn:Et; [| exact F].
  destruct k.
  - destruct (pts !! i) as [[rec | | e] |] eqn:Ei; try exact F.
    pose proof (resume_record_outcome KPost rec r (effects s)) as Hout.
    destruct (resume_record KPost rec r (effects s)) as [t h]. cbn [fst] in Hout.
    assert (Hlt : i < length pts) by (apply lookup_lt_Some in Ei; exact Ei).
    match goal with
    | |- failure_inv (settle_result ?p ?s0) =>
        destruct (settle_result_others p s0) as (Ef & Ett & _ & Ep & Eg);
        pose proof (result_settle_result p s0) as Er
    end.
    unfold failure_inv. rewrite Ef, Ett, Ep, Eg, Er.
    cbn [fetch posts pages result tasks set_tasks].
    split; [exact Fp |]. split; [exact Fg |]. split.
    + intros e0 He0. destruct (result s) as [| | e1] eqn:Eres; cbn [is_pending] in He0.
      * right. destruct Hout as [-> | ->].
        -- unfold joined in He0. destruct (forallb _ _); discriminate He0.
        -- injection He0 as <-. split; [reflexivity |].
           exists (<[i := Crashed undefined_id]> pts), pgts, i.
           split; [reflexivity | apply list_lookup_insert_eq, Hlt].
      * discriminate He0.
      * destruct (Fe e0 He0) as [H | (Hid & pts0 & pgts0 & j & Hts & Hj)]; [left; exact H |].
        right. split; [exact Hid |]. injection Hts as <- <-.
        exists (<[i := t]> pts), pgts, j. split; [reflexivity |].
        rewrite list_lookup_insert_ne; [exact Hj |]. intros <-. congruence.
    + intros pts0 pgts0 j e0 Hsome Hj. injection Hsome as <- <-.
      destruct (decide (i = j)) as [<- | Hne].
      * rewrite list_lookup_insert_eq in Hj by exact Hlt. injection Hj as ->.
        destruct (result s) as [| | e1] eqn:Eres; cbn [is_pending].
        -- exists e0. reflexivity.
        -- exfalso. destruct (inv_fulfilled s I Eres) as (pts0 & pgts0 & Ht0 & Hd).
           rewrite Et in Ht0. injection Ht0 as <- <-.
           exact (forallb_is_done_lookup pts i rec Hd Ei).
        -- exists e1. reflexivity.
      * rewrite list_lookup_insert_ne in Hj by exact Hne.
        destruct (Fc pts pgts j e0 eq_refl Hj) as [e1 He1].
        rewrite He1. cbn [is_pending]. exists e1. reflexivity.
  - destruct (pgts !! i) as [[rec | | e] |] eqn:Ei; try exact F.
    destruct (resume_record KPage rec r (effects s)) as [t h].
    unfold failure_inv. cbn [fetch posts pages result tasks set_tasks].
    split; [exact Fp |]. split; [exact Fg |]. split.
    + intros e0 He0. destruct (Fe e0 He0) as [H | (Hid & pts0 & pgts0 & j & Hts & Hj)];
        [left; exact H |].
      right. split; [exact Hid |]. injection Hts as <- <-.
      exists pts, (<[i := t]> pgts), j. auto.
    + intros pts0 pgts0 j e0 Hsome Hj. injection Hsome as <- <-.
      exact (Fc pts pgts j e0 eq_refl Hj).
Qed.

Lemma step_failure (ev : event) (s : state) :
  reachable_inv s -> failure_inv s -> failure_inv (step ev s).
Proof.
  intros I F. destruct ev as [o | o | o | o | o | k i r]; cbn [step].
  - apply browse_settles_failure; [apply set_posts_quiet | | exact I | exact F].
    intros a s0. cbn [posts pages set_posts]. split; [discriminate |].
    intros [H | H]; [discriminate H | exact H].
  - apply browse_settles_failure; [apply set_pages_quiet | | exact I | exact F].
    intros a s0. cbn [posts pages set_pages]. split; [| discriminate].
    intros [H | H]; [discriminate H | exact H].
  - apply browse_settles_failure; [| | exact I | exact F].
    + apply forEach_count_quiet. intros c. left. reflexivity.
    + intros a s0. cbn [posts pages set_effects].
      split; (intros [H | H]; [discriminate H | exact H]).
  - apply browse_settles_failure; [| | exact I | exact F].
    + apply forEach_count_quiet. intros c. right. reflexivity.
    + intros a s0. cbn [posts pages set_effects].
      split; (intros [H | H]; [discriminate H | exact H]).
  - apply browse_settles_failure; [apply on_settings_quiet | | exact I | exact F].
    intros a s0. cbn [posts pages set_effects].
    split; (intros [H | H]; [discriminate H | exact H]).
  - apply image_settles_failure; assumption.
Qed.

Lemma run_failure (evs : list event) (s : state) :
  reachable_inv s -> failure_inv s -> failure_inv (run evs s).
Proof.
  revert s. induction evs as [| ev rest IH]; intros s I F; cbn [run]; [exact F |].
  apply IH; [apply step_inv, I | apply step_failure; assumption].
Qed.

Lemma init_failure : failure_inv init.
Proof. repeat split; discriminate. Qed.

(** X13: a post whose callback has thrown has rejected the run.  In every
    run, as soon as the callback of some post has thrown (which it does when
    its download failed), the returned promise is rejected; it is never
    fulfilled, nor left pending, over a post that threw. *)
Theorem thrown_post_rejects_run (evs : list event) (pts pgts : list task)
    (i : nat) (e : error) :
  tasks (run evs init) = Some (pts, pgts) ->
  pts !! i = Some (Crashed e) ->
  rejected (result (run evs init)).
Proof.
  intros Ht Hi.
  destruct (run_failure evs init init_inv init_failure) as (_ & _ & _ & Fc).
  exact (Fc pts pgts i e Ht Hi).
Qed.

Lemma thrown_post_rejects_run_witness :
  tasks (run (fetched_one_image_post ++
              [ImageSettle KPost 0 (DownloadFails (Thrown "404"))]) init)
    = Some ([Crashed undefined_id], [])
  /\ [Crashed undefined_id] !! 0 = Some (Crashed undefined_id)
  /\ rejected (result (run (fetched_one_image_post ++
                  [ImageSettle KPost 0 (DownloadFails (Thrown "404"))]) init)).
Proof.
  assert (Ht : tasks (run (fetched_one_image_post ++
              [ImageSettle KPost 0 (DownloadFails (Thrown "404"))]) init)
    = Some ([Crashed undefined_id], [])) by reflexivity.
  split; [exact Ht |]. split; [reflexivity |].
  exact (thrown_post_rejects_run _ _ _ 0 undefined_id Ht eq_refl).
Defined.

(** ** One node per record *)

Lemma nodes_of_app (t : ctype) (h1 h2 : trace) :
  nodes_of t (h1 ++ h2) = nodes_of t h1 ++ nodes_of t h2.
Proof. unfold nodes_of. rewrite created_app. apply List.filter_app. Qed.

Lemma nodes_of_quiet (extra : trace) :
  Forall (step_effect false) extra ->
  nodes_of TPost extra = [] /\ nodes_of TPage extra = [].
Proof.
  induction 1 as [| e rest He _ [IHp IHg]]; [split; reflexivity |].
  change (e :: rest) with ([e] ++ rest). rewrite !nodes_of_app, IHp, IHg, !app_nil_r.
  destruct e as [r | n | u p | fid nm v | er]; try (split; reflexivity).
  cbn in He. unfold nodes_of. cbn.
  destruct (node_type n); try discriminate He; split; reflexivity.
Qed.

Lemma nodes_of_before_start (s : state) :
  reachable_inv s -> tasks s = None ->
  nodes_of TPost (effects s) = [] /\ nodes_of TPage (effects s) = [].
Proof.
  intros I Hn. destruct (inv_trace s I) as (rest & -> & F).
  unfold started in F. rewrite Hn in F.
  rewrite !nodes_of_app. destruct (nodes_of_quiet rest F) as [-> ->].
  split; reflexivity.
Qed.

Lemma nodes_of_single (t : ctype) (n : HostNode) :
  nodes_of t [CreateNode n] = if bool_decide (node_type n = t) then [n] else [].
Proof. reflexivity. Qed.

Lemma nodes_of_factory (k : kind) (t : ctype) (l : list Content) :
  length (nodes_of t (map (fun rec => CreateNode (factory k rec)) l))
  = if decide (kind_type k = t) then length l else 0.
Proof.
  induction l as [| rec rest IH]; [destruct (decide _); reflexivity |].
  cbn [map]. change (CreateNode (factory k rec) :: ?x) with ([CreateNode (factory k rec)] ++ x).
  rewrite nodes_of_app, length_app, IH, nodes_of_single, factory_type.
  destruct (decide (kind_type k = t)) as [Heq | Hne].
  - rewrite bool_decide_eq_true_2 by exact Heq. reflexivity.
  - rewrite bool_decide_eq_false_2 by exact Hne. reflexivity.
Qed.

Lemma finished_task_of (recs : list Content) :
  finished (map task_of recs) = length (without_image recs).
Proof.
  unfold finished, without_image. induction recs as [| rec rest IH]; [reflexivity |].
  cbn [map List.filter]. rewrite filter_cons. unfold task_of at 1.
  destruct (has_image rec); cbn [is_done].
  - destruct (decide (true = false)) as [Hd |]; [discriminate Hd | exact IH].
  - destruct (decide (false = false)) as [| Hd]; [| contradiction].
    cbn [length]. rewrite IH. reflexivity.
Qed.

Lemma finished_insert (ts : list task) (i : nat) (rec : Content) (t : task) :
  ts !! i = Some (Waiting rec) ->
  finished (<[i := t]> ts) = (if is_done t then S (finished ts) else finished ts).
Proof.
  unfold finished. revert i. induction ts as [| t0 rest IH]; intros i Hi; [discriminate Hi |].
  destruct i as [| i]; cbn in Hi.
  - injection Hi as ->. cbn. destruct (is_done t); reflexivity.
  - specialize (IH i Hi).
    change (<[S i := t]> (t0 :: rest)) with (t0 :: <[i := t]> rest).
    cbn [List.filter].
    destruct (is_done t0); cbn [length]; rewrite IH; destruct (is_done t); reflexivity.
Qed.

Lemma finished_le (ts : list task) : finished ts <= length ts.
Proof. unfold finished. apply List.filter_length_le. Qed.

Lemma finished_all (ts : list task) : forallb is_done ts = true -> finished ts = length ts.
Proof.
  unfold finished. induction ts as [| t rest IH]; [reflexivity |].
  cbn. intros H. apply andb_prop in H as [Ht Hr]. rewrite Ht. cbn. rewrite IH; auto.
Qed.

Lemma resume_record_nodes (k : kind) (rec : Content) (r : image_reply) (h : trace)
    (t : ctype) :
  length (nodes_of t (snd (resume_record k rec r h)))
  = length (nodes_of t h)
    + (if is_done (fst (resume_record k rec r h))
       then (if decide (kind_type k = t) then 1 else 0) else 0).
Proof.
  rewrite resume_record_eq.
  set (fi := get (fields rec) "feature_image"). set (id := get (fields rec) "id").
  assert (Hq : nodes_of t (sideload_calls fi id r ++
                 match failure_of r with Some e => [Warn e] | None => [] end) = []).
  { unfold nodes_of. rewrite created_app.
    destruct (sideload_calls_quiet fi id r) as [_ ->].
    destruct (failure_of r); reflexivity. }
  destruct (sideload_result fi id r) as [f |]; cbn [fst snd is_done].
  - rewrite nodes_of_app, (nodes_of_app t h), Hq, app_nil_r, length_app.
    pose proof (nodes_of_factory k t
      [{| fields := <["localFile___NODE" := VStr (file_id f)]> (fields rec);
          image := Some f |}]) as Hn.
    cbn [map length] in Hn. rewrite Hn. destruct (decide _); reflexivity.
  - rewrite nodes_of_app, Hq, app_nil_r. lia.
Qed.

Lemma browse_settles_count {A : Type} (r : resource) (o : outcome A)
    (k : A -> state -> state) (s : state) :
  quiet_callback k -> reachable_inv s -> count_inv s ->
  count_inv (browse_settles r o k s).
Proof.
  intros Hk I C. unfold browse_settles.
  destruct (fetch s r) eqn:Hr; [| exact C | exact C].
  destruct (not_started_while_pending s r I Hr) as [Hnone _].
  destruct o as [a | e].
  - destruct (resolved_inv r k a s Hk I Hr) as [I1 _].
    destruct (Hk a s) as (_ & Ht & _).
    set (s1 := set_fetch r Fulfilled (k a s)) in *.
    assert (Hn1 : tasks s1 = None) by (cbn [s1 tasks set_fetch]; congruence).
    destruct (all_fulfilled s1).
    + destruct (posts s1) as [ps |] eqn:Hps, (pages s1) as [pgs |] eqn:Hpgs.
      1: { destruct (on_all_fetched_eq s1 ps pgs Hps Hpgs) as (Hts & He & _).
           intros pts pgts Hsome. rewrite Hts in Hsome. injection Hsome as <- <-.
           rewrite He, !nodes_of_app, !length_app.
           destruct (nodes_of_before_start s1 I1 Hn1) as [-> ->].
           rewrite !finished_task_of.
           change PostNode with (factory KPost). change PageNode with (factory KPage).
           rewrite !nodes_of_factory. cbn [kind_type].
           repeat case_decide; try congruence; cbn [length]; split; lia. }
      all: intros pts pgts Hsome; unfold on_all_fetched in Hsome;
           rewrite Hps, ?Hpgs in Hsome;
           destruct (settle_result_others
                       (Failed (TypeError "Cannot read property 'map' of undefined")) s1)
             as (_ & Ht1 & _);
           rewrite Ht1, Hn1 in Hsome; discriminate Hsome.
    + intros pts pgts Hsome. rewrite Hn1 in Hsome. discriminate Hsome.
  - intros pts pgts Hsome.
    destruct (settle_result_others (Failed e) (set_fetch r (Failed e) s)) as (_ & Ht & _).
    rewrite Ht in Hsome. cbn [tasks set_fetch] in Hsome. rewrite Hnone in Hsome.
    discriminate Hsome.
Qed.

Lemma image_settles_count (k : kind) (i : nat) (r : image_reply) (s : state) :
  count_inv s -> count_inv (image_settles k i r s).
Proof.
  intros C. unfold image_settles.
  destruct (tasks s) as [[pts pgts] |] eqn:Et; [| exact C].
  destruct (C pts pgts Et) as [Cp Cg].
  destruct k.
  - destruct (pts !! i) as [[rec | | e] |] eqn:Ei; try exact C.
    pose proof (resume_record_nodes KPost rec r (effects s) TPost) as Np.
    pose proof (resume_record_nodes KPost rec r (effects s) TPage) as Ng.
    destruct (resume_record KPost rec r (effects s)) as [t h]. cbn [fst snd] in Np, Ng.
    intros pts' pgts' Hsome.
    match type of Hsome with
    | tasks (settle_result ?p ?s0) = _ =>
        destruct (settle_result_others p s0) as (_ & Ht & He & _)
    end.
    rewrite Ht in Hsome. cbn [tasks set_tasks] in Hsome. injection Hsome as <- <-.
    rewrite He. cbn [effects set_tasks]. rewrite Np, Ng, (finished_insert pts i rec t Ei).
    cbn [kind_type]. repeat case_decide; try congruence;
      destruct (is_done t); split; lia.
  - destruct (pgts !! i) as [[rec | | e] |] eqn:Ei; try exact C.
    pose proof (resume_record_nodes KPage rec r (effects s) TPost) as Np.
    pose proof (resume_record_nodes KPage rec r (effects s) TPage) as Ng.
    destruct (resume_record KPage rec r (effects s)) as [t h]. cbn [fst snd] in Np, Ng.
    intros pts' pgts' Hsome. cbn [tasks set_tasks] in Hsome. injection Hsome as <- <-.
    cbn [effects set_tasks]. rewrite Np, Ng, (finished_insert pgts i rec t Ei).
    cbn [kind_type]. repeat case_decide; try congruence;
      destruct (is_done t); split; lia.
Qed.

Lemma step_count (ev : event) (s : state) :
  reachable_inv s -> count_inv s -> count_inv (step ev s).
Proof.
  intros I C. destruct ev as [o | o | o | o | o | k i r]; cbn [step].
  - apply browse_settles_count; [apply set_posts_quiet | exact I | exact C].
  - apply browse_settles_count; [apply set_pages_quiet | exact I | exact C].
  - apply browse_settles_count; [| exact I | exact C].
    apply forEach_count_quiet. intros c. left. reflexivity.
  - apply browse_settles_count; [| exact I | exact C].
    apply forEach_count_quiet. intros c. right. reflexivity.
  - apply browse_settles_count; [apply on_settings_quiet | exact I | exact C].
  - apply image_settles_count, C.
Qed.

Lemma run_count (evs : list event) (s : state) :
  reachable_inv s -> count_inv s -> count_inv (run evs s).
Proof.
  revert s. induction evs as [| ev rest IH]; intros s I C; cbn [run]; [exact C |].
  apply IH; [apply step_inv, I | apply step_count; assumption].
Qed.

(** X14: no record gets two nodes.  In every run the number of post nodes
    created is the number of post callbacks that have finished, and the same
    for pages; so there are never more post nodes than posts fetched nor more
    page nodes than pages fetched, and when the returned promise is
    fulfilled there are exactly as many post nodes as posts. *)
Theorem one_node_per_record (evs : list event) (ps pgs : list Content) :
  let s := run evs init in
  posts s = Some ps -> pages s = Some pgs ->
  length (nodes_of TPost (effects s)) <= length ps
  /\ length (nodes_of TPage (effects s)) <= length pgs
  /\ (forall pts pgts, tasks s = Some (pts, pgts) ->
      length (nodes_of TPost (effects s)) = finished pts
      /\ length (nodes_of TPage (effects s)) = finished pgts)
  /\ (result s = Fulfilled -> length (nodes_of TPost (effects s)) = length ps).
Proof.
  intros s Hps Hpgs. destruct (reachable_records evs) as [I R]. fold s in I, R.
  assert (C : count_inv s).
  { apply run_count; [apply init_inv |]. intros pts pgts H. discriminate H. }
  destruct (tasks s) as [[pts pgts] |] eqn:Et.
  - destruct (R pts pgts Et) as (ps' & pgs' & Hps' & Hpgs' & Fp & Fg & _).
    rewrite Hps in Hps'. rewrite Hpgs in Hpgs'.
    injection Hps' as <-. injection Hpgs' as <-.
    destruct (C pts pgts Et) as [Cp Cg].
    apply Forall2_length in Fp, Fg.
    pose proof (finished_le pts). pose proof (finished_le pgts).
    split; [lia |]. split; [lia |]. split.
    + intros pts0 pgts0 Heq. injection Heq as <- <-. auto.
    + intros Hf. destruct (inv_fulfilled s I Hf) as (pts0 & pgts0 & Ht0 & Hd).
      rewrite Et in Ht0. injection Ht0 as <- <-.
      rewrite Cp, (finished_all pts Hd). lia.
  - destruct (nodes_of_before_start s I Et) as [-> ->]. cbn [length].
    split; [lia |]. split; [lia |]. split; [intros pts pgts H; discriminate H |].
    intros Hf. destruct (inv_fulfilled s I Hf) as (pts0 & pgts0 & Ht0 & _).
    rewrite Et in Ht0. discriminate Ht0.
Qed.

Lemma one_node_per_record_witness :
  posts (run (fetched_one_image_post ++
              [ImageSettle KPost 0 (Downloaded sample_file None None)]) init)
    = Some [image_post]
  /\ pages (run (fetched_one_image_post ++
                 [ImageSettle KPost 0 (Downloaded sample_file None None)]) init)
     = Some []
  /\ length (nodes_of TPost (effects (run (fetched_one_image_post ++
               [ImageSettle KPost 0 (Downloaded sample_file None None)]) init)))
     <= length [image_post]
  /\ length (nodes_of TPage (effects (run (fetched_one_image_post ++
               [ImageSettle KPost 0 (Downloaded sample_file None None)]) init)))
     <= length (@nil Content)
  /\ (forall pts pgts,
        tasks (run (fetched_one_image_post ++
                [ImageSettle KPost 0 (Downloaded sample_file None None)]) init)
          = Some (pts, pgts) ->
        length (nodes_of TPost (effects (run (fetched_one_image_post ++
                  [ImageSettle KPost 0 (Downloaded sample_file None None)]) init)))
          = finished pts
        /\ length (nodes_of TPage (effects (run (fetched_one_image_post ++
                     [ImageSettle KPost 0 (Downloaded sample_file None None)]) init)))
           = finished pgts)
  /\ (result (run (fetched_one_image_post ++
                   [ImageSettle KPost 0 (Downloaded sample_file None None)]) init)
        = Fulfilled ->
      length (nodes_of TPost (effects (run (fetched_one_image_post ++
                [ImageSettle KPost 0 (Downloaded sample_file None None)]) init)))
        = length [image_post]).
Proof.
  split; [reflexivity |]. split; [reflexivity |].
  apply (one_node_per_record
           (fetched_one_image_post ++
            [ImageSettle KPost 0 (Downloaded sample_file None None)])
           [image_post] []); reflexivity.
Defined.

(** ** The image link and the annotations, with interleaved callbacks *)

Import Interleaved.




Lemma write_same (l : ref) (name : string) (v : value) (hp : ref -> FileNode) :
  write l name v hp l = annotate (hp l) name v.
Proof. unfold write. destruct (decide (l = l)); [reflexivity | contradiction]. Qed.

















(** Without interleaving the two models agree: a side-load whose pieces
    run one after the other on an object of its own makes the calls of
    [Ingest.resume_record], after the [createRemoteFileNode] call made at
    the start, and ends with the same node. *)
Lemma uninterrupted_side_load (k : kind) (rec : Content) (hp : ref -> FileNode)
    (l : ref) :
  let fi := get (fields rec) "feature_image" in
  let id := get (fields rec) "id" in
  let s0 := {| heap := hp; callbacks := [(k, rec, AtDownload)];
               log := [CreateRemoteFileNode fi id] |} in
  log (Interleaved.run
         [Download 0 (Resolved l) None; Resume 0 None; Resume 0 None; Resume 0 None] s0)
  = snd (Ingest.resume_record k rec (Downloaded (hp l) None None) []).
Proof.
  intros fi id s0. rewrite resume_record_eq.
  cbn [sideload_result failure_of sideload_calls snd].
  unfold s0. cbn -[factory]. rewrite !write_same.
  unfold write. cbn -[factory]. reflexivity.
Qed.
